(** * Reactive view-model logic of the pool front-end

    A shallow embedding of two composables:

    - [usePoolCreation.ts]: the module-level reactive [poolCreationState] and
      the functions that mutate it ([proceed], [setStep], [createPool],
      [joinPool], ...), in [Module PoolCreation];
    - the invest-form math composable ([useInvestFormMath]): its computed
      fields ([fullAmounts], [batchSwapAmountMap], [priceImpact], [maximized],
      [bptOut], ...), its methods and its watcher, in [Module InvestMath].

    Reactive objects become records, functions that mutate them become
    functions from state to state, computed fields become functions of the
    state they read.  Code that can throw returns a [result].  Libraries and
    services the composables import (the calculator service, bignumber.js,
    ethers, the token store) are interfaces, given as type classes. *)

From stdpp Require Import base strings list gmap.
From Stdlib Require Import ZArith Ascii DecimalString.

Local Open Scope Z_scope.
Local Open Scope string_scope.

(** ** What a call evaluates to: a value, or an exception *)

Inductive result (A : Type) : Type :=
  | Returned (a : A)
  | Thrown.
Arguments Returned {A} a.
Arguments Thrown {A}.

#[global] Instance result_ret : MRet result := λ A a, Returned a.

#[global] Instance result_bind : MBind result := λ A B k r,
  match r with
  | Returned a => k a
  | Thrown => Thrown
  end.

#[global] Instance result_fmap : FMap result := λ A B f r,
  match r with
  | Returned a => Returned (f a)
  | Thrown => Thrown
  end.

(** [Array.prototype.map] with a callback that may throw: the first exception
    aborts the whole map. *)
Fixpoint map_result {A B} (f : nat → A → result B) (i : nat) (l : list A)
  : result (list B) :=
  match l with
  | [] => Returned []
  | a :: l' =>
      b ← f i a;
      bs ← map_result f (S i) l';
      Returned (b :: bs)
  end.

(** ** usePoolCreation.ts *)

Module PoolCreation.

(** [type TokenWeight].  [weight] and [amount] are JavaScript numbers that the
    functions below only carry around; [id] is a counter. *)
Record TokenWeight : Type := {
  tokenAddress : string;
  weight : Z;
  isLocked : bool;
  amount : Z;
  id : Z
}.

(** The string-literal union types.  TypeScript erases them: at run time the
    fields hold plain strings, so the unions are kept as the lists of their
    members, exactly as declared. *)
Definition FeeManagementType : list string := ["governance"; "self"].
Definition FeeType : list string := ["fixed"; "dynamic"].
Definition FeeController : list string := ["self"; "other"].
Definition CreateState : list string := ["none"; "creating"; "created"; "failed"].
Definition JoinState : list string := ["non"; "joining"; "joined"; "failed"].

(** The reactive [poolCreationState] object.  [activeStep] counts the steps of
    the wizard: it starts at 0 and is only ever incremented or reset, so it
    is an integer. *)
Record State : Type := {
  name : string;
  tokenWeights : list TokenWeight;
  activeStep : Z;
  initialFee : string;
  isFeeGovManaged : bool;
  feeManagementType : string;
  feeType : string;
  feeController : string;
  thirdPartyFeeController : string;
  fee : string;
  tokensList : list string;
  poolId : string;
  poolAddress : string;
  createState : string;
  joinState : string
}.

(** The object literal passed to [reactive]. *)
Definition poolCreationState : State := {|
  name := "MyPool";
  tokenWeights := [];
  activeStep := 0;
  initialFee := "0";
  isFeeGovManaged := false;
  feeManagementType := "governance";
  feeType := "fixed";
  feeController := "self";
  thirdPartyFeeController := "";
  fee := "0";
  tokensList := [];
  poolId := "";
  poolAddress := "";
  createState := "none";
  joinState := "none"
|}.

(** Assignments to single fields. *)
Definition set_tokenWeights (v : list TokenWeight) (s : State) : State :=
  {| name := name s; tokenWeights := v; activeStep := activeStep s;
     initialFee := initialFee s; isFeeGovManaged := isFeeGovManaged s;
     feeManagementType := feeManagementType s; feeType := feeType s;
     feeController := feeController s;
     thirdPartyFeeController := thirdPartyFeeController s; fee := fee s;
     tokensList := tokensList s; poolId := poolId s;
     poolAddress := poolAddress s; createState := createState s;
     joinState := joinState s |}.

Definition set_tokensList (v : list string) (s : State) : State :=
  {| name := name s; tokenWeights := tokenWeights s; activeStep := activeStep s;
     initialFee := initialFee s; isFeeGovManaged := isFeeGovManaged s;
     feeManagementType := feeManagementType s; feeType := feeType s;
     feeController := feeController s;
     thirdPartyFeeController := thirdPartyFeeController s; fee := fee s;
     tokensList := v; poolId := poolId s;
     poolAddress := poolAddress s; createState := createState s;
     joinState := joinState s |}.

Definition set_activeStep (v : Z) (s : State) : State :=
  {| name := name s; tokenWeights := tokenWeights s; activeStep := v;
     initialFee := initialFee s; isFeeGovManaged := isFeeGovManaged s;
     feeManagementType := feeManagementType s; feeType := feeType s;
     feeController := feeController s;
     thirdPartyFeeController := thirdPartyFeeController s; fee := fee s;
     tokensList := tokensList s; poolId := poolId s;
     poolAddress := poolAddress s; createState := createState s;
     joinState := joinState s |}.

Definition set_feeManagementType (v : string) (s : State) : State :=
  {| name := name s; tokenWeights := tokenWeights s; activeStep := activeStep s;
     initialFee := initialFee s; isFeeGovManaged := isFeeGovManaged s;
     feeManagementType := v; feeType := feeType s;
     feeController := feeController s;
     thirdPartyFeeController := thirdPartyFeeController s; fee := fee s;
     tokensList := tokensList s; poolId := poolId s;
     poolAddress := poolAddress s; createState := createState s;
     joinState := joinState s |}.

Definition set_feeType (v : string) (s : State) : State :=
  {| name := name s; tokenWeights := tokenWeights s; activeStep := activeStep s;
     initialFee := initialFee s; isFeeGovManaged := isFeeGovManaged s;
     feeManagementType := feeManagementType s; feeType := v;
     feeController := feeController s;
     thirdPartyFeeController := thirdPartyFeeController s; fee := fee s;
     tokensList := tokensList s; poolId := poolId s;
     poolAddress := poolAddress s; createState := createState s;
     joinState := joinState s |}.

Definition set_feeController (v : string) (s : State) : State :=
  {| name := name s; tokenWeights := tokenWeights s; activeStep := activeStep s;
     initialFee := initialFee s; isFeeGovManaged := isFeeGovManaged s;
     feeManagementType := feeManagementType s; feeType := feeType s;
     feeController := v;
     thirdPartyFeeController := thirdPartyFeeController s; fee := fee s;
     tokensList := tokensList s; poolId := poolId s;
     poolAddress := poolAddress s; createState := createState s;
     joinState := joinState s |}.

Definition set_thirdPartyFeeController (v : string) (s : State) : State :=
  {| name := name s; tokenWeights := tokenWeights s; activeStep := activeStep s;
     initialFee := initialFee s; isFeeGovManaged := isFeeGovManaged s;
     feeManagementType := feeManagementType s; feeType := feeType s;
     feeController := feeController s;
     thirdPartyFeeController := v; fee := fee s;
     tokensList := tokensList s; poolId := poolId s;
     poolAddress := poolAddress s; createState := createState s;
     joinState := joinState s |}.

Definition set_poolId (v : string) (s : State) : State :=
  {| name := name s; tokenWeights := tokenWeights s; activeStep := activeStep s;
     initialFee := initialFee s; isFeeGovManaged := isFeeGovManaged s;
     feeManagementType := feeManagementType s; feeType := feeType s;
     feeController := feeController s;
     thirdPartyFeeController := thirdPartyFeeController s; fee := fee s;
     tokensList := tokensList s; poolId := v;
     poolAddress := poolAddress s; createState := createState s;
     joinState := joinState s |}.

Definition set_poolAddress (v : string) (s : State) : State :=
  {| name := name s; tokenWeights := tokenWeights s; activeStep := activeStep s;
     initialFee := initialFee s; isFeeGovManaged := isFeeGovManaged s;
     feeManagementType := feeManagementType s; feeType := feeType s;
     feeController := feeController s;
     thirdPartyFeeController := thirdPartyFeeController s; fee := fee s;
     tokensList := tokensList s; poolId := poolId s;
     poolAddress := v; createState := createState s;
     joinState := joinState s |}.

Definition set_createState (v : string) (s : State) : State :=
  {| name := name s; tokenWeights := tokenWeights s; activeStep := activeStep s;
     initialFee := initialFee s; isFeeGovManaged := isFeeGovManaged s;
     feeManagementType := feeManagementType s; feeType := feeType s;
     feeController := feeController s;
     thirdPartyFeeController := thirdPartyFeeController s; fee := fee s;
     tokensList := tokensList s; poolId := poolId s;
     poolAddress := poolAddress s; createState := v;
     joinState := joinState s |}.

Definition set_joinState (v : string) (s : State) : State :=
  {| name := name s; tokenWeights := tokenWeights s; activeStep := activeStep s;
     initialFee := initialFee s; isFeeGovManaged := isFeeGovManaged s;
     feeManagementType := feeManagementType s; feeType := feeType s;
     feeController := feeController s;
     thirdPartyFeeController := thirdPartyFeeController s; fee := fee s;
     tokensList := tokensList s; poolId := poolId s;
     poolAddress := poolAddress s; createState := createState s;
     joinState := v |}.

(** Two states that agree on every field other than [activeStep]. *)
Definition same_but_activeStep (s s' : State) : Prop :=
  name s' = name s ∧ tokenWeights s' = tokenWeights s ∧
  initialFee s' = initialFee s ∧ isFeeGovManaged s' = isFeeGovManaged s ∧
  feeManagementType s' = feeManagementType s ∧ feeType s' = feeType s ∧
  feeController s' = feeController s ∧
  thirdPartyFeeController s' = thirdPartyFeeController s ∧ fee s' = fee s ∧
  tokensList s' = tokensList s ∧ poolId s' = poolId s ∧
  poolAddress s' = poolAddress s ∧ createState s' = createState s ∧
  joinState s' = joinState s.

(** The callback of the deep watcher on [tokenWeights].  The scheduler runs it
    after the weights were changed, not inside the function that changed
    them, so it is a step of its own. *)
Definition watch_tokenWeights (s : State) : State :=
  set_tokensList (tokenAddress <$> tokenWeights s) s.

Definition updateTokenWeights (weights : list TokenWeight) (s : State) : State :=
  set_tokenWeights weights s.

(** The comparator given to [sort]: [tokenA.tokenAddress > tokenB.tokenAddress
    ? 1 : -1], strings compared code unit by code unit. *)
Definition compareTokenWeights (tokenA tokenB : TokenWeight) : Z :=
  if String.ltb (tokenAddress tokenB) (tokenAddress tokenA) then 1 else -1.

Section Composable.

(** [Array.prototype.sort] is the engine's; only that it rearranges the array
    in place is used here. *)
Variable Array_sort :
  (TokenWeight → TokenWeight → Z) → list TokenWeight → list TokenWeight.

Definition sortTokenWeights (s : State) : State :=
  set_tokenWeights (Array_sort compareTokenWeights (tokenWeights s)) s.

Definition proceed (s : State) : State :=
  set_activeStep (activeStep s + 1) s.

Definition setFeeManagement (type : string) (s : State) : State :=
  set_feeManagementType type s.

Definition setFeeType (type : string) (s : State) : State :=
  set_feeType type s.

Definition setStep (step : Z) (s : State) : State :=
  set_activeStep 0 s.

Definition setFeeController (controller : string) (s : State) : State :=
  set_feeController controller s.

Definition setTrpController (address : string) (s : State) : State :=
  set_thirdPartyFeeController address s.

(** *** createPool and joinPool

    Both are [async]: they run up to the call that submits the transaction,
    are resumed with its outcome, and register two callbacks with
    [txListener].  Each piece of code between two suspension points is one
    function on the state; the outcome of the awaited call is its argument. *)

(** What [balancerService.pools.weighted.details] resolves to. *)
Record PoolDetails : Type := {
  details_id : string;
  details_address : string
}.

(** A submitted transaction, identified by its hash. *)
Record TransactionResponse : Type := { hash : string }.

(** How a listened-to transaction ends; [TxPending] when neither callback has
    run. *)
Inductive TxOutcome : Type :=
  | TxConfirmed
  | TxFailed
  | TxPending.

(** [createPool], up to the point where [weighted.create] is called. *)
Definition createPool_begin (s : State) : State :=
  set_createState "creating" (sortTokenWeights s).

(** The [catch] block of [createPool]. *)
Definition createPool_catch (s : State) : State :=
  set_createState "failed" s.

(** The [onTxConfirmed] callback of [createPool]; [details] is the outcome of
    the awaited [weighted.details] call.  When that call throws, the three
    assignments after it do not run. *)
Definition createPool_onTxConfirmed (details : result PoolDetails) (s : State)
  : State :=
  match details with
  | Returned poolDetails =>
      set_createState "created"
        (set_poolAddress (details_address poolDetails)
           (set_poolId (details_id poolDetails) s))
  | Thrown => s
  end.

(** The [onTxFailed] callback of [createPool]. *)
Definition createPool_onTxFailed (s : State) : State :=
  set_createState "failed" s.

(** One run of [createPool], described by what its environment answers. *)
Record CreateRun : Type := {
  (** [weighted.create] (with the construction of its arguments) and
      [addTransaction]: a transaction, or an exception *)
  create_submit : result TransactionResponse;
  create_outcome : TxOutcome;
  create_details : result PoolDetails
}.

(** The states [poolCreationState] goes through in one run of [createPool]:
    the state in which the transaction is submitted, then the state once the
    submission and the transaction are settled. *)
Definition createPool (run : CreateRun) (s : State) : State * State :=
  let submitting := createPool_begin s in
  (submitting,
   match create_submit run with
   | Thrown => createPool_catch submitting
   | Returned tx =>
       match create_outcome run with
       | TxConfirmed => createPool_onTxConfirmed (create_details run) submitting
       | TxFailed => createPool_onTxFailed submitting
       | TxPending => submitting
       end
   end).

(** [joinPool], up to the point where [weighted.initJoin] is called. *)
Definition joinPool_begin (s : State) : State :=
  set_joinState "joining" (sortTokenWeights s).

Definition joinPool_catch (s : State) : State :=
  set_joinState "failed" s.

Definition joinPool_onTxConfirmed (s : State) : State :=
  set_joinState "joined" s.

Definition joinPool_onTxFailed (s : State) : State :=
  set_joinState "failed" s.

Record JoinRun : Type := {
  (** [getScaledAmounts], [weighted.initJoin] and [addTransaction] *)
  join_submit : result TransactionResponse;
  join_outcome : TxOutcome
}.

Definition joinPool (run : JoinRun) (s : State) : State * State :=
  let submitting := joinPool_begin s in
  (submitting,
   match join_submit run with
   | Thrown => joinPool_catch submitting
   | Returned tx =>
       match join_outcome run with
       | TxConfirmed => joinPool_onTxConfirmed submitting
       | TxFailed => joinPool_onTxFailed submitting
       | TxPending => submitting
       end
   end).

(** *** Reachable states

    What happens to [poolCreationState]: a call of one of the returned
    functions, a run of the watcher, or one of the pieces of [createPool] and
    [joinPool], which run when the awaited call or the transaction settles,
    in between whatever else is called. *)
Inductive Action : Type :=
  | DoWatchTokenWeights
  | DoUpdateTokenWeights (weights : list TokenWeight)
  | DoProceed
  | DoSetFeeManagement (type : string)
  | DoSetFeeType (type : string)
  | DoSetStep (step : Z)
  | DoSetFeeController (controller : string)
  | DoSetTrpController (address : string)
  | DoCreatePoolBegin
  | DoCreatePoolCatch
  | DoCreatePoolTxConfirmed (details : result PoolDetails)
  | DoCreatePoolTxFailed
  | DoJoinPoolBegin
  | DoJoinPoolCatch
  | DoJoinPoolTxConfirmed
  | DoJoinPoolTxFailed.

Definition perform (a : Action) (s : State) : State :=
  match a with
  | DoWatchTokenWeights => watch_tokenWeights s
  | DoUpdateTokenWeights weights => updateTokenWeights weights s
  | DoProceed => proceed s
  | DoSetFeeManagement type => setFeeManagement type s
  | DoSetFeeType type => setFeeType type s
  | DoSetStep step => setStep step s
  | DoSetFeeController controller => setFeeController controller s
  | DoSetTrpController address => setTrpController address s
  | DoCreatePoolBegin => createPool_begin s
  | DoCreatePoolCatch => createPool_catch s
  | DoCreatePoolTxConfirmed details => createPool_onTxConfirmed details s
  | DoCreatePoolTxFailed => createPool_onTxFailed s
  | DoJoinPoolBegin => joinPool_begin s
  | DoJoinPoolCatch => joinPool_catch s
  | DoJoinPoolTxConfirmed => joinPool_onTxConfirmed s
  | DoJoinPoolTxFailed => joinPool_onTxFailed s
  end.

Inductive reachable : State → Prop :=
  | reachable_initial : reachable poolCreationState
  | reachable_perform a s : reachable s → reachable (perform a s).

End Composable.

End PoolCreation.

(** ** The invest-form math composable *)

Module InvestMath.

(** *** What the composable imports *)

(** The JavaScript values and built-ins used: numbers (only their truthiness
    and the literals [0] and [100] matter here) and
    [String.prototype.toLowerCase]. *)
Class JavaScript : Type := {
  number : Type;
  number_of_Z : Z → number;
  number_truthy : number → bool;
  toLowerCase : string → string
}.

(** bignumber.js, reached through [bnum] of [@/lib/utils].  Methods such as
    [gt] convert their argument to a big number first; here they take it
    converted. *)
Class BigNumberJs `{JavaScript} : Type := {
  bignumber : Type;
  bnum : string → bignumber;
  (** the number literal [0] as a big number *)
  bn_zero : bignumber;
  bn_gt : bignumber → bignumber → bool;
  bn_eq : bignumber → bignumber → bool;
  bn_minus : bignumber → bignumber → bignumber;
  bn_toString : bignumber → string;
  bn_toNumber : bignumber → number;
  (** equal numbers are not strictly ordered *)
  bn_eq_not_gt : ∀ x y, bn_eq x y = true → bn_gt x y = false
}.

(** ethers: its [BigNumber] is an unbounded integer, a [Z] here, so [abs] is
    [Z.abs] and [gt(0)] is [0 <? _]. *)
Class Ethers : Type := {
  BigNumber_from : string → result Z;
  BigNumber_toString : Z → string;
  parseUnits : string → nat → result Z
}.

(** [TokenInfo], of which only [decimals] and [symbol] are read. *)
Record TokenInfo : Type := {
  symbol : string;
  decimals : nat
}.

(** [useTokens().nativeAsset]. *)
Record NativeAsset : Type := {
  address : string;
  minTransactionBuffer : string
}.

(** What [propAmountsGiven] returns. *)
Record Amounts : Type := {
  send : list string;
  receive : list string;
  fixedToken : nat
}.

(** The composables and services the math is delegated to: the token store
    ([useTokens]), [useSlippage], [usePool] and the pool calculator service.
    What the router query resolves to is an argument of [getBatchSwap]. *)
Class Services `{BigNumberJs} : Type := {
  FullPool : Type;
  SwapV2 : Type;
  getToken : string → option TokenInfo;
  balanceFor : string → string;
  nativeAsset : NativeAsset;
  minusSlippageScaled : Z → Z;
  managedPoolWithTradingHalted : FullPool → bool;
  isPhantomStablePool : FullPool → bool;
  (** the [PoolCalculator] built from [pool] and [useNativeAsset] *)
  poolCalculator_priceImpact : FullPool → bool → list string → result bignumber;
  poolCalculator_exactTokensInForBPTOut :
    FullPool → bool → list string → result bignumber;
  poolCalculator_propAmountsGiven :
    FullPool → bool → string → nat → string → result Amounts
}.

Section Composable.

Context `{Services} `{Ethers}.

(** [type BatchSwap]. *)
Record BatchSwap : Type := {
  amountTokenOut : string;
  swaps : list SwapV2;
  assets : list string
}.

(** The refs the composable receives ([pool], [tokenAddresses], [amounts],
    [useNativeAsset]) and the two it creates.  An entry of [amounts] can be
    missing ([null] or [undefined]): [None]. *)
Record State : Type := {
  pool : FullPool;
  tokenAddresses : list string;
  amounts : list (option string);
  useNativeAsset : bool;
  proportionalAmounts : list string;
  batchSwap : option BatchSwap
}.

Definition set_amounts (v : list (option string)) (s : State) : State :=
  {| pool := pool s; tokenAddresses := tokenAddresses s; amounts := v;
     useNativeAsset := useNativeAsset s;
     proportionalAmounts := proportionalAmounts s; batchSwap := batchSwap s |}.

Definition set_proportionalAmounts (v : list string) (s : State) : State :=
  {| pool := pool s; tokenAddresses := tokenAddresses s; amounts := amounts s;
     useNativeAsset := useNativeAsset s;
     proportionalAmounts := v; batchSwap := batchSwap s |}.

Definition set_batchSwap (v : option BatchSwap) (s : State) : State :=
  {| pool := pool s; tokenAddresses := tokenAddresses s; amounts := amounts s;
     useNativeAsset := useNativeAsset s;
     proportionalAmounts := proportionalAmounts s; batchSwap := v |}.

(** *** Array built-ins *)

(** [a[i] || d] for an array of strings: the entry when there is one and it
    is truthy (not the empty string), [d] otherwise. *)
Definition index_or (a : list (option string)) (i : nat) (d : string) : string :=
  match a !! i with
  | Some (Some x) => if decide (x = "") then d else x
  | _ => d
  end.

(** [a[i] = x]: inside the array the entry is replaced; past its end the
    array grows, with holes up to [i]. *)
Definition Array_set {A} (i : nat) (x : A) (a : list (option A))
  : list (option A) :=
  if decide (i < length a)%nat then <[i := Some x]> a
  else a ++ replicate (i - length a) None ++ [Some x].

(** [a.every((x, i) => p(x, i))], counting from [i]. *)
Fixpoint every {A} (p : A → nat → bool) (i : nat) (a : list A) : bool :=
  match a with
  | [] => true
  | x :: a' => if p x i then every p (S i) a' else false
  end.

(** [a.some(x => p(x))]. *)
Fixpoint some {A} (p : A → bool) (a : list A) : bool :=
  match a with
  | [] => false
  | x :: a' => if p x then true else some p a'
  end.

(** [a.forEach((x, i) => f(x, i))], counting from [i], [f] acting on a store
    [St]. *)
Fixpoint forEach {A St} (f : A → nat → St → St) (i : nat) (a : list A) (st : St)
  : St :=
  match a with
  | [] => st
  | x :: a' => forEach f (S i) a' (f x i st)
  end.

(** [a.findIndex((x, i) => p(x, i))], counting from [i]: the first index that
    satisfies [p], [-1] when there is none. *)
Fixpoint findIndex {A} (p : A → nat → bool) (i : nat) (a : list A) : Z :=
  match a with
  | [] => -1
  | x :: a' => if p x i then Z.of_nat i else findIndex p (S i) a'
  end.

(** [Object.fromEntries]: entries are added in order, a later entry replaces
    an earlier one with the same key. *)
Definition Object_fromEntries (entries : list (string * Z)) : gmap string Z :=
  foldl (λ obj (entry : string * Z), <[entry.1 := entry.2]> obj) ∅ entries.

(** *** Computed fields *)

Definition tokenCount (s : State) : nat := length (tokenAddresses s).

Definition poolTokens (s : State) : list (option TokenInfo) :=
  getToken <$> tokenAddresses s.

Definition fullAmounts (s : State) : list string :=
  imap (λ i _, index_or (amounts s) i "0") (replicate (tokenCount s) "0").

(** Reading [.decimals] of a token that [getToken] does not know throws, as
    [parseUnits] can. *)
Definition fullAmountsScaled (s : State) : result (list Z) :=
  map_result
    (λ i amount,
       match poolTokens s !! i with
       | Some (Some token) => parseUnits amount (decimals token)
       | _ => Thrown
       end)
    0%nat (fullAmounts s).

Definition batchSwapAmountMap (s : State) : result (gmap string Z) :=
  scaled ← fullAmountsScaled s;
  allTokensWithAmounts ←
    map_result
      (λ i amount,
         match tokenAddresses s !! i with
         | Some tokenAddress => Returned (toLowerCase tokenAddress, amount)
         | None => Thrown
         end)
      0%nat scaled;
  let onlyTokensWithAmounts :=
    filter (λ entry : string * Z, 0 < entry.2) allTokensWithAmounts in
  Returned (Object_fromEntries onlyTokensWithAmounts).

Definition hasAmounts (s : State) : bool :=
  some (λ amount, bn_gt (bnum amount) bn_zero) (fullAmounts s).

Definition priceImpact (s : State) : number :=
  if negb (hasAmounts s) then number_of_Z 0
  else
    match poolCalculator_priceImpact (pool s) (useNativeAsset s) (fullAmounts s) with
    | Returned impact =>
        if number_truthy (bn_toNumber impact) then bn_toNumber impact
        else number_of_Z 0
    | Thrown => number_of_Z 100
    end.

(** The callback of [every] in [maximized].  [fullAmounts] has one entry per
    token address, so the address at [i] is always there. *)
Definition maximized_at (s : State) (amount : string) (i : nat) : bool :=
  match tokenAddresses s !! i with
  | Some tokenAddress =>
      if decide (tokenAddress = address nativeAsset) then
        let balance := balanceFor tokenAddress in
        bool_decide
          (amount =
           bn_toString
             (bn_minus (bnum balance) (bnum (minTransactionBuffer nativeAsset))))
      else bool_decide (amount = balanceFor tokenAddress)
  | None => false
  end.

Definition maximized (s : State) : bool :=
  every (maximized_at s) 0%nat (fullAmounts s).

Definition bptOut (s : State) : result string :=
  _bptOut ←
    match batchSwap s with
    | Some swap => Z.abs <$> BigNumber_from (amountTokenOut swap)
    | None =>
        out ← poolCalculator_exactTokensInForBPTOut
                (pool s) (useNativeAsset s) (fullAmounts s);
        BigNumber_from (bn_toString out)
    end;
  if managedPoolWithTradingHalted (pool s)
  then Returned (BigNumber_toString _bptOut)
  else Returned (BigNumber_toString (minusSlippageScaled _bptOut)).

(** [pool.value && isPhantomStablePool.value && hasAmounts.value]; the pool
    is an object, which is truthy. *)
Definition shouldFetchBatchSwap (s : State) : bool :=
  isPhantomStablePool (pool s) && hasAmounts s.

(** *** Methods *)

(** The callback of [forEach] in [maximizeAmounts]: one assignment to
    [amounts.value[i]]. *)
Definition maximizeAmounts_at (s : State) (_ : string) (i : nat)
    (amounts : list (option string)) : list (option string) :=
  match tokenAddresses s !! i with
  | Some tokenAddress =>
      if decide (tokenAddress = address nativeAsset) then
        let balance := balanceFor tokenAddress in
        Array_set i
          (if bn_gt (bnum balance) (bnum (minTransactionBuffer nativeAsset))
           then bn_toString
                  (bn_minus (bnum balance)
                     (bnum (minTransactionBuffer nativeAsset)))
           else "0")
          amounts
      else Array_set i (balanceFor tokenAddress) amounts
  | None => amounts
  end.

(** [forEach] walks the array [fullAmounts.value] it was called on; the
    assignments go to [amounts.value]. *)
Definition maximizeAmounts (s : State) : State :=
  set_amounts (forEach (maximizeAmounts_at s) 0%nat (fullAmounts s) (amounts s)) s.

(** [getBatchSwap]; [answer] is what the awaited [queryBatchSwapTokensIn]
    settles to.  When the amount map or the query throws, nothing is
    assigned. *)
Definition getBatchSwap (answer : result BatchSwap) (s : State) : State :=
  match batchSwapAmountMap s, answer with
  | Returned _, Returned swap => set_batchSwap (Some swap) s
  | _, _ => s
  end.

(** The callback of [watch(fullAmounts, ...)].  [newAmounts] is the value of
    [fullAmounts] the watcher has just read, the array that
    [fullAmounts.value] gives inside the callback; [oldAmounts] is the value
    from before.  [changedIndex] is an index of that array, so the entry
    passed to [propAmountsGiven] is there.  When [propAmountsGiven] throws
    the callback ends there. *)
Definition watch_fullAmounts (answer : result BatchSwap)
    (oldAmounts : list string) (s : State) : State :=
  let newAmounts := fullAmounts s in
  let changedIndex :=
    findIndex (λ amount i, bool_decide (oldAmounts !! i ≠ Some amount))
      0%nat newAmounts in
  let changed : result State :=
    if (0 <=? changedIndex)%Z then
      match fullAmounts s !! Z.to_nat changedIndex with
      | Some amount =>
          given ← poolCalculator_propAmountsGiven (pool s) (useNativeAsset s)
                    amount (Z.to_nat changedIndex) "send";
          Returned (set_proportionalAmounts (send given) s)
      | None => Thrown
      end
    else Returned s in
  match changed with
  | Returned s' => if shouldFetchBatchSwap s' then getBatchSwap answer s' else s'
  | Thrown => s
  end.

(** The watcher fires when [fullAmounts] is recomputed: in the state [s] it
    runs the callback with the value [fullAmounts] had in the state
    [before]. *)
Definition fullAmounts_changed (answer : result BatchSwap) (before s : State)
  : State :=
  watch_fullAmounts answer (fullAmounts before) s.

(** The amount that [maximizeAmounts] assigns for a token: the balance, and
    for the native asset the balance less the transaction buffer, or ['0']
    when the balance does not exceed the buffer. *)
Definition maximal_amount (tokenAddress : string) : string :=
  if decide (tokenAddress = address nativeAsset) then
    if bn_gt (bnum (balanceFor tokenAddress))
             (bnum (minTransactionBuffer nativeAsset))
    then bn_toString
           (bn_minus (bnum (balanceFor tokenAddress))
              (bnum (minTransactionBuffer nativeAsset)))
    else "0"
  else balanceFor tokenAddress.

(** *** The specification's sentences, to compare the code with *)

(** "For every index [i] into the token addresses, the lower-cased address
    appears as a key of [batchSwapAmountMap] if and only if the scaled amount
    at [i] is strictly greater than zero, and in that case it maps to exactly
    that scaled amount." *)
Definition batchSwapAmountMap_stated (s : State) : Prop :=
  ∀ amountMap scaled,
    batchSwapAmountMap s = Returned amountMap →
    fullAmountsScaled s = Returned scaled →
    ∀ i tokenAddress amount,
      tokenAddresses s !! i = Some tokenAddress →
      scaled !! i = Some amount →
      (is_Some (amountMap !! toLowerCase tokenAddress) ↔ 0 < amount) ∧
      (0 < amount → amountMap !! toLowerCase tokenAddress = Some amount).

(** "If every entry of [fullAmounts] is zero it is 0; otherwise it equals the
    number obtained from [poolCalculator.priceImpact(fullAmounts).toNumber()]
    (with 0 substituted when that result is falsy), and it is 100 when the
    calculator call throws." *)
Definition priceImpact_stated (s : State) : number :=
  if forallb (λ amount, bn_eq (bnum amount) bn_zero) (fullAmounts s)
  then number_of_Z 0
  else
    match poolCalculator_priceImpact (pool s) (useNativeAsset s) (fullAmounts s) with
    | Returned impact =>
        if number_truthy (bn_toNumber impact) then bn_toNumber impact
        else number_of_Z 0
    | Thrown => number_of_Z 100
    end.

End Composable.

End InvestMath.

(** ** A small environment to run the composables in

    Instances of the interfaces above that can be evaluated: decimal literals
    for bignumber.js and ethers, ASCII lower-casing, and service stubs.  They
    follow the libraries on plain decimal literals ([12], [-1], [0.05]) and
    on ASCII strings, which is what the examples below feed them. *)

Module Sample.

Import InvestMath.

(** A decimal: [coefficient] times ten to the minus [places]. *)
Record Decimal : Type := {
  coefficient : Z;
  places : nat
}.

(** The text before and after the first ['.'], if there is one. *)
Fixpoint split_point (text : string) : string * option string :=
  match text with
  | EmptyString => (EmptyString, None)
  | String c rest =>
      if Ascii.eqb c "."%char then (EmptyString, Some rest)
      else let '(whole, fraction) := split_point rest in
           (String c whole, fraction)
  end.

Definition digits (text : string) : option Z :=
  Z.of_uint <$> NilEmpty.uint_of_string text.

(** [-?digits], [-?digits.digits], [-?.digits] or [-?digits.]; anything else
    is not a number. *)
Definition parse_decimal (text : string) : option Decimal :=
  let '(negative, body) :=
    match text with
    | String "-"%char rest => (true, rest)
    | _ => (false, text)
    end in
  let '(whole, fraction) := split_point body in
  let fraction := default EmptyString fraction in
  if decide (String.length whole + String.length fraction = 0)%nat then None
  else
    w ← digits whole;
    f ← digits fraction;
    let magnitude := w * 10 ^ Z.of_nat (String.length fraction) + f in
    Some {| coefficient := if negative : bool then - magnitude else magnitude;
            places := String.length fraction |}.

(** Trailing zeros of the fraction are dropped, at most [fuel] of them. *)
Fixpoint normalise (fuel : nat) (d : Decimal) : Decimal :=
  match fuel, places d with
  | S fuel', S places' =>
      if decide (coefficient d mod 10 = 0)
      then normalise fuel' {| coefficient := coefficient d / 10; places := places' |}
      else d
  | _, _ => d
  end.

Fixpoint zeros (n : nat) : string :=
  match n with
  | O => EmptyString
  | S n' => String "0"%char (zeros n')
  end.

(** Plain notation: sign, whole part, and the fraction when there is one. *)
Definition print_decimal (d : Decimal) : string :=
  let d := normalise (places d) d in
  let sign := if (coefficient d <? 0)%Z then "-" else "" in
  let text := NilZero.string_of_uint (N.to_uint (Z.to_N (Z.abs (coefficient d)))) in
  let text := zeros (S (places d) - String.length text) +:+ text in
  let whole := String.substring 0 (String.length text - places d) text in
  let fraction := String.substring (String.length text - places d) (places d) text in
  if decide (places d = 0%nat) then sign +:+ whole
  else sign +:+ whole +:+ "." +:+ fraction.

(** The big numbers of the sample: a decimal, or [NaN]. *)
Definition sample_gt (x y : option Decimal) : bool :=
  match x, y with
  | Some a, Some b =>
      (coefficient b * 10 ^ Z.of_nat (places a)
       <? coefficient a * 10 ^ Z.of_nat (places b))%Z
  | _, _ => false
  end.

Definition sample_eq (x y : option Decimal) : bool :=
  match x, y with
  | Some a, Some b =>
      (coefficient a * 10 ^ Z.of_nat (places b)
       =? coefficient b * 10 ^ Z.of_nat (places a))%Z
  | _, _ => false
  end.

Definition sample_minus (x y : option Decimal) : option Decimal :=
  match x, y with
  | Some a, Some b =>
      Some {| coefficient := coefficient a * 10 ^ Z.of_nat (places b)
                             - coefficient b * 10 ^ Z.of_nat (places a);
              places := places a + places b |}
  | _, _ => None
  end.

Definition sample_toString (x : option Decimal) : string :=
  match x with
  | Some d => print_decimal d
  | None => "NaN"
  end.

(** Lower-casing of the letters [A] to [Z]. *)
Definition lower_ascii (c : Ascii.ascii) : Ascii.ascii :=
  let n := Ascii.nat_of_ascii c in
  if decide (65 ≤ n ≤ 90)%nat then Ascii.ascii_of_nat (n + 32) else c.

Fixpoint lower (text : string) : string :=
  match text with
  | EmptyString => EmptyString
  | String c rest => String (lower_ascii c) (lower rest)
  end.

(** Numbers are the same decimals; a number is truthy unless it is zero or
    [NaN]. *)
Definition sample_JavaScript : JavaScript := {|
  number := option Decimal;
  number_of_Z := λ z, Some {| coefficient := z; places := 0 |};
  number_truthy := λ x,
    match x with
    | Some d => negb (coefficient d =? 0)%Z
    | None => false
    end;
  toLowerCase := lower
|}.

Definition sample_eq_not_gt (x y : option Decimal) :
  sample_eq x y = true → sample_gt x y = false.
Proof.
  destruct x as [a|], y as [b|]; simpl; try done.
  intros Heq%Z.eqb_eq. apply Z.ltb_ge. lia.
Qed.

Definition sample_BigNumberJs : @BigNumberJs sample_JavaScript := {|
  bignumber := option Decimal;
  bnum := parse_decimal;
  bn_zero := Some {| coefficient := 0; places := 0 |};
  bn_gt := sample_gt;
  bn_eq := sample_eq;
  bn_minus := sample_minus;
  bn_toString := sample_toString;
  bn_toNumber := λ x : option Decimal, x : @number sample_JavaScript;
  bn_eq_not_gt := sample_eq_not_gt
|}.

(** Integers in decimal notation, and [parseUnits] shifting a decimal by
    [unit] places; a fraction longer than that is refused. *)
Definition sample_from (text : string) : result Z :=
  match NilZero.int_of_string text with
  | Some i => Returned (Z.of_int i)
  | None => Thrown
  end.

Definition sample_parseUnits (value : string) (unit : nat) : result Z :=
  match parse_decimal value with
  | Some d =>
      let d := normalise (places d) d in
      if decide (places d ≤ unit)%nat
      then Returned (coefficient d * 10 ^ Z.of_nat (unit - places d))
      else Thrown
  | None => Thrown
  end.

Definition sample_Ethers : Ethers := {|
  BigNumber_from := sample_from;
  BigNumber_toString := λ z, NilZero.string_of_int (Z.to_int z);
  parseUnits := sample_parseUnits
|}.

(** Services for a wallet whose balance of every token is [balance]: every
    token has 18 decimals, the native asset keeps a buffer of 0.05, slippage
    is one percent, and the calculator answers every question with
    [answer]. *)
Definition sample_Services (balance : string)
    (answer : result (@bignumber sample_JavaScript sample_BigNumberJs))
  : @Services sample_JavaScript sample_BigNumberJs := {|
  FullPool := unit;
  SwapV2 := unit;
  getToken := λ _, Some {| symbol := "TKN"; decimals := 18 |};
  balanceFor := λ _, balance;
  nativeAsset :=
    {| address := "0xEeeeeEeeeEeEeeEeEeEeeEEEeeeeEeeeeeeeEEeE";
       minTransactionBuffer := "0.05" |};
  minusSlippageScaled := λ amount, amount - amount * 100 / 10000;
  managedPoolWithTradingHalted := λ _, false;
  isPhantomStablePool := λ _, false;
  poolCalculator_priceImpact := λ _ _ _, answer;
  poolCalculator_exactTokensInForBPTOut := λ _ _ _, answer;
  poolCalculator_propAmountsGiven := λ _ _ amount index _,
    Returned {| send := [amount]; receive := []; fixedToken := index |}
|}.

(** States of the composable over these services. *)
Definition sample_State (balance : string)
    (answer : result (@bignumber sample_JavaScript sample_BigNumberJs)) : Type :=
  @State sample_JavaScript sample_BigNumberJs (sample_Services balance answer).

Definition sample_state (balance : string)
    (answer : result (@bignumber sample_JavaScript sample_BigNumberJs))
    (addresses : list string) (inputs : list (option string))
  : sample_State balance answer :=
  {| pool := () : @FullPool _ _ (sample_Services balance answer);
     tokenAddresses := addresses;
     amounts := inputs;
     useNativeAsset := false;
     proportionalAmounts := [];
     batchSwap := None |}.

(** Two tokens, one unit of the first. *)
Definition two_tokens : sample_State "0" Thrown :=
  sample_state "0" Thrown ["0xAb"; "0xCd"] [Some "1"; Some "0"].

(** The same address twice, in two spellings; one unit at the first. *)
Definition one_token_twice : sample_State "0" Thrown :=
  sample_state "0" Thrown ["0xAb"; "0xab"] [Some "1"; Some "0"].

(** A calculator that answers 0.03, and a single token with an amount of
    one, of zero, and of minus one. *)
Definition three_percent
  : result (@bignumber sample_JavaScript sample_BigNumberJs) :=
  Returned (Some {| coefficient := 3; places := 2 |}).

Definition amount_one : sample_State "0" three_percent :=
  sample_state "0" three_percent ["0xAb"] [Some "1"].

Definition amount_zero : sample_State "0" three_percent :=
  sample_state "0" three_percent ["0xAb"] [Some "0.0"].

Definition amount_negative : sample_State "0" three_percent :=
  sample_state "0" three_percent ["0xAb"] [Some "-1"].

(** A calculator that answers 2000; the same pool after a batch swap that
    gives 1000 pool tokens out. *)
Definition two_thousand
  : result (@bignumber sample_JavaScript sample_BigNumberJs) :=
  Returned (Some {| coefficient := 2000; places := 0 |}).

Definition without_swap : sample_State "0" two_thousand :=
  sample_state "0" two_thousand ["0xAb"] [Some "1"].

Definition with_swap : sample_State "0" two_thousand :=
  set_batchSwap
    (Some {| amountTokenOut := "-1000"; swaps := []; assets := ["0xab"] |})
    without_swap.

(** One token and then a second amount typed in, on a pool of two. *)
Definition first_typed : sample_State "0" Thrown :=
  sample_state "0" Thrown ["0xAb"; "0xCd"] [Some "1"].

Definition second_typed : sample_State "0" Thrown :=
  sample_state "0" Thrown ["0xAb"; "0xCd"] [Some "1"; Some "7"].

(** A pool holding the native asset, in a wallet with 0.01 of it: less than
    the buffer of 0.05. *)
Definition small_native_balance : sample_State "0.01" Thrown :=
  sample_state "0.01" Thrown ["0xEeeeeEeeeEeEeeEeEeEeeEEEeeeeEeeeeeeeEEeE"] [].

End Sample.

(** ** The rest of usePoolCreation.ts *)

Module PoolCreationRest.

Import PoolCreation.

(** What a lookup that can come back empty-handed gives: [null],
    [undefined], or a value. *)
Inductive Maybe (A : Type) : Type :=
  | IsNull
  | IsUndefined
  | Is (a : A).
Arguments IsNull {A}.
Arguments IsUndefined {A}.
Arguments Is {A} a.

(** [a.find(x => p(x))]: the first element that satisfies [p]. *)
Fixpoint find {A} (p : A → bool) (a : list A) : option A :=
  match a with
  | [] => None
  | x :: a' => if p x then Some x else find p a'
  end.

Section SimilarPools.

(** The pools of the subgraph, of which only [swapFee] is read. *)
Variable Pool : Type.
Variable swapFee : Pool → string.

(** One page of the pools query. *)
Record Page : Type := { pools : list Pool }.

(** [flatten(similarPoolsResponse.value?.pages.map(p => p.pools))]; the
    response is [None] while the query has no data, and [flatten] of
    [undefined] is the empty array. *)
Definition similarPools (similarPoolsResponse : option (list Page)) : list Pool :=
  match similarPoolsResponse with
  | Some pages => concat (pools <$> pages)
  | None => []
  end.

Definition existingPool (similarPoolsResponse : option (list Page)) (s : State)
  : Maybe Pool :=
  if decide (length (similarPools similarPoolsResponse) = 0%nat) then IsNull
  else
    match find (λ pool, bool_decide (swapFee pool = initialFee s))
               (similarPools similarPoolsResponse) with
    | Some similarPool => Is similarPool
    | None => IsUndefined
    end.

End SimilarPools.

End PoolCreationRest.

(** ** The rest of the invest-form math composable *)

Module InvestMathRest.

Import InvestMath.

(** [a.includes(x)] on an array of booleans. *)
Fixpoint includes (x : bool) (a : list bool) : bool :=
  match a with
  | [] => false
  | y :: a' => if Bool.eqb y x then true else includes x a'
  end.

Section Composable.

Context `{Services} `{Ethers}.

(** [poolCalculator.propMax()], of the calculator built from [pool] and
    [useNativeAsset]. *)
Variable poolCalculator_propMax : FullPool → bool → result Amounts.

Definition poolTokenBalances (s : State) : list string :=
  balanceFor <$> tokenAddresses s.

Definition hasZeroBalance (s : State) : bool :=
  includes true
    ((λ balance, bn_eq (bnum balance) bn_zero) <$> poolTokenBalances s).

Definition hasNoBalances (s : State) : bool :=
  every (λ balance _, bn_eq (bnum balance) bn_zero) 0%nat (poolTokenBalances s).

Definition hasAllTokens (s : State) : bool :=
  every (λ balance _, bn_gt (bnum balance) bn_zero) 0%nat (poolTokenBalances s).

(** [fullAmounts.value[index] || '0']. *)
Definition tokenAmount (s : State) (index : nat) : string :=
  index_or (Some <$> fullAmounts s) index "0".

(** [send[i]] is [undefined] past the end of [send], and then differs from
    every amount. *)
Definition optimized (s : State) : result bool :=
  given ← poolCalculator_propMax (pool s) (useNativeAsset s);
  Returned
    (every (λ amount i, bool_decide (send given !! i = Some amount))
       0%nat (fullAmounts s)).

(** [amounts.value = [...send]]; nothing is assigned when [propMax]
    throws. *)
Definition optimizeAmounts (s : State) : result State :=
  given ← poolCalculator_propMax (pool s) (useNativeAsset s);
  Returned (set_amounts (Some <$> send given) s).

End Composable.

End InvestMathRest.

(** ** More of the small environment *)

Module SampleRest.

Import InvestMath Sample.

(** A sort for the token weights: insertion sort, an element going before
    the first one that the comparator does not put it after. *)
Fixpoint insert_sorted
    (compare : PoolCreation.TokenWeight → PoolCreation.TokenWeight → Z)
    (x : PoolCreation.TokenWeight) (sorted : list PoolCreation.TokenWeight)
  : list PoolCreation.TokenWeight :=
  match sorted with
  | [] => [x]
  | y :: sorted' =>
      if (compare x y <=? 0)%Z then x :: y :: sorted'
      else y :: insert_sorted compare x sorted'
  end.

Definition sample_sort
    (compare : PoolCreation.TokenWeight → PoolCreation.TokenWeight → Z)
    (weights : list PoolCreation.TokenWeight) : list PoolCreation.TokenWeight :=
  foldr (insert_sorted compare) [] weights.

(** Pools of the subgraph reduced to their swap fee, on two pages. *)
Definition two_pages : option (list (PoolCreationRest.Page string)) :=
  Some [ {| PoolCreationRest.pools := ["0.003"; "0.01"] |};
         {| PoolCreationRest.pools := ["0.01"; "0"] |} ].

(** The pool-creation state once an initial fee of one percent is chosen. *)
Definition one_percent_fee : PoolCreation.State :=
  {| PoolCreation.name := "MyPool"; PoolCreation.tokenWeights := [];
     PoolCreation.activeStep := 0; PoolCreation.initialFee := "0.01";
     PoolCreation.isFeeGovManaged := false;
     PoolCreation.feeManagementType := "governance";
     PoolCreation.feeType := "fixed"; PoolCreation.feeController := "self";
     PoolCreation.thirdPartyFeeController := ""; PoolCreation.fee := "0";
     PoolCreation.tokensList := []; PoolCreation.poolId := "";
     PoolCreation.poolAddress := ""; PoolCreation.createState := "none";
     PoolCreation.joinState := "none" |}.

(** Services that know one token only, and whose calculator throws when
    asked for proportional amounts; the wallet holds [balance] of every
    token. *)
Definition strict_Services (balance : string)
  : @Services sample_JavaScript sample_BigNumberJs := {|
  FullPool := unit;
  SwapV2 := unit;
  getToken := λ tokenAddress,
    if decide (tokenAddress = "0xAb")
    then Some {| symbol := "TKN"; decimals := 18 |} else None;
  balanceFor := λ _, balance;
  nativeAsset :=
    {| address := "0xEeeeeEeeeEeEeeEeEeEeeEEEeeeeEeeeeeeeEEeE";
       minTransactionBuffer := "0.05" |};
  minusSlippageScaled := λ amount, amount - amount * 100 / 10000;
  managedPoolWithTradingHalted := λ _, false;
  isPhantomStablePool := λ _, true;
  poolCalculator_priceImpact := λ _ _ _, Thrown;
  poolCalculator_exactTokensInForBPTOut := λ _ _ _, Thrown;
  poolCalculator_propAmountsGiven := λ _ _ _ _ _, Thrown
|}.

Definition strict_state (balance : string)
    (addresses : list string) (inputs : list (option string))
  : @State sample_JavaScript sample_BigNumberJs (strict_Services balance) :=
  {| pool := () : @FullPool _ _ (strict_Services balance);
     tokenAddresses := addresses;
     amounts := inputs;
     useNativeAsset := false;
     proportionalAmounts := [];
     batchSwap := None |}.

(** A pool with a token the services do not know. *)
Definition unknown_token
  : @State sample_JavaScript sample_BigNumberJs (strict_Services "0") :=
  strict_state "0" ["0xAb"; "0xCd"] [Some "1"; Some "2"].

(** One amount typed, and then changed. *)
Definition typed_one
  : @State sample_JavaScript sample_BigNumberJs (strict_Services "0") :=
  strict_state "0" ["0xAb"] [Some "1"].

Definition typed_two
  : @State sample_JavaScript sample_BigNumberJs (strict_Services "0") :=
  strict_state "0" ["0xAb"] [Some "2"].

(** A calculator whose [propMax] sends 2 and 3. *)
Definition sample_propMax (balance : string)
    (answer : result (@bignumber sample_JavaScript sample_BigNumberJs))
    (_ : @FullPool _ _ (sample_Services balance answer)) (_ : bool)
  : result Amounts :=
  Returned {| send := ["2"; "3"]; receive := []; fixedToken := 0%nat |}.

(** A pool of the native asset and one more token, in a wallet holding one
    of each; amounts longer than the pool. *)
Definition native_and_token : sample_State "1" Thrown :=
  sample_state "1" Thrown
    ["0xEeeeeEeeeEeEeeEeEeEeeEEEeeeeEeeeeeeeEEeE"; "0xAb"]
    [None; Some "5"; Some "9"].

(** The same pool in a wallet that holds nothing, and a pool without
    tokens. *)
Definition empty_wallet : sample_State "0" Thrown :=
  sample_state "0" Thrown ["0xAb"; "0xCd"] [].

Definition no_tokens : sample_State "0" Thrown :=
  sample_state "0" Thrown [] [Some "1"].

End SampleRest.

(** ** Properties of usePoolCreation.ts *)

Module PoolCreationFacts.

Import PoolCreation.

Lemma set_activeStep_frame (v : Z) (s : State) :
  same_but_activeStep s (set_activeStep v s).
Proof. repeat split. Qed.

(** C6: [proceed] adds exactly one to [activeStep] and changes no other field
    of the pool-creation state. *)
Theorem proceed_increments_activeStep (s : State) :
  activeStep (proceed s) = activeStep s + 1 ∧
  same_but_activeStep s (proceed s).
Proof.
  split; [reflexivity|]. apply set_activeStep_frame.
Qed.

(** C8: [setStep n] puts [activeStep] back to [0] whatever [n] is, and changes
    no other field of the pool-creation state. *)
Theorem setStep_resets_activeStep (n : Z) (s : State) :
  activeStep (setStep n s) = 0 ∧
  same_but_activeStep s (setStep n s).
Proof.
  split; [reflexivity|]. apply set_activeStep_frame.
Qed.

Section Runs.

Variable Array_sort :
  (TokenWeight → TokenWeight → Z) → list TokenWeight → list TokenWeight.

(** Sorting the weights touches neither [createState] nor [joinState]. *)
Lemma sortTokenWeights_states (s : State) :
  createState (sortTokenWeights Array_sort s) = createState s ∧
  joinState (sortTokenWeights Array_sort s) = joinState s.
Proof. done. Qed.

(** C3: [createPool] and [joinPool] submit their transaction in a state whose
    field is ['creating'] / ['joining']; a confirmed transaction leaves
    ['created'] / ['joined'], and [createPool] then holds the id and address
    of the fetched pool details; a failed transaction, and an exception while
    the transaction is built or submitted, leave ['failed']. *)
Theorem createPool_joinPool_states (s : State) :
  (∀ run, createState (createPool Array_sort run s).1 = "creating") ∧
  (∀ tx details fetched,
     let run := {| create_submit := Returned tx; create_outcome := TxConfirmed;
                   create_details := Returned fetched |} in
     let run' := {| create_submit := Returned tx; create_outcome := TxFailed;
                    create_details := details |} in
     let s' := (createPool Array_sort run s).2 in
     createState s' = "created" ∧
     poolId s' = details_id fetched ∧
     poolAddress s' = details_address fetched ∧
     createState (createPool Array_sort run' s).2 = "failed") ∧
  (∀ outcome details,
     let run := {| create_submit := Thrown; create_outcome := outcome;
                   create_details := details |} in
     createState (createPool Array_sort run s).2 = "failed") ∧
  (∀ run, joinState (joinPool Array_sort run s).1 = "joining") ∧
  (∀ tx,
     joinState (joinPool Array_sort
                  {| join_submit := Returned tx; join_outcome := TxConfirmed |}
                  s).2 = "joined" ∧
     joinState (joinPool Array_sort
                  {| join_submit := Returned tx; join_outcome := TxFailed |}
                  s).2 = "failed") ∧
  (∀ outcome,
     joinState (joinPool Array_sort
                  {| join_submit := Thrown; join_outcome := outcome |}
                  s).2 = "failed").
Proof.
  repeat split.
Qed.

(** Every reachable [joinState] is one of these four strings: the members of
    [JoinState] with ['none'] in the place of ['non']. *)
Lemma reachable_joinState (s : State) :
  reachable Array_sort s →
  joinState s ∈ ["none"; "joining"; "joined"; "failed"].
Proof.
  induction 1 as [|a s _ IH].
  - simpl. apply list_elem_of_In. simpl. tauto.
  - destruct a as [| | | | | | | | | |details| | | | |]; simpl; try exact IH;
      try (apply list_elem_of_In; simpl; tauto).
    by destruct details.
Qed.

(** C10, on the initial state: [joinState] starts as ['none'], which is not
    one of the four members of [JoinState]. *)
Theorem initial_joinState_not_declared :
  reachable Array_sort poolCreationState ∧
  joinState poolCreationState = "none" ∧
  joinState poolCreationState ∉ JoinState.
Proof.
  split; [constructor|]. split; [reflexivity|].
  unfold JoinState. simpl. rewrite list_elem_of_In. simpl.
  intros [?|[?|[?|[?|[]]]]]; discriminate.
Qed.

End Runs.

End PoolCreationFacts.

(** ** Properties of the invest-form math *)

Module InvestMathFacts.

Import InvestMath.

Section Facts.

Context `{Services} `{Ethers}.

(** *** fullAmounts *)

Lemma fullAmounts_length (s : State) :
  length (fullAmounts s) = length (tokenAddresses s).
Proof.
  unfold fullAmounts, tokenCount. by rewrite length_imap, length_replicate.
Qed.

Lemma fullAmounts_lookup (s : State) (i : nat) :
  (i < length (tokenAddresses s))%nat →
  fullAmounts s !! i = Some (index_or (amounts s) i "0").
Proof.
  intros Hi. unfold fullAmounts, tokenCount.
  rewrite list_lookup_imap.
  assert (replicate (length (tokenAddresses s)) "0" !! i = Some "0") as ->.
  { by apply lookup_replicate. }
  done.
Qed.

Lemma index_or_present (a : list (option string)) (i : nat) (x d : string) :
  a !! i = Some (Some x) → x ≠ "" → index_or a i d = x.
Proof.
  intros Hx Hne. unfold index_or. rewrite Hx. by destruct (decide (x = "")).
Qed.

Lemma index_or_absent (a : list (option string)) (i : nat) (d : string) :
  a !! i = None ∨ a !! i = Some None ∨ a !! i = Some (Some "") →
  index_or a i d = d.
Proof.
  unfold index_or. by intros [-> | [-> | ->]].
Qed.

(** C7: [fullAmounts] has one entry per token address; entry [i] is
    [amounts[i]] when that is present and not empty, and ['0'] when it is
    missing, null or empty; so every index below the token count reads a
    string. *)
Theorem fullAmounts_total (s : State) :
  length (fullAmounts s) = length (tokenAddresses s) ∧
  ∀ i, (i < length (tokenAddresses s))%nat →
    (∀ x, amounts s !! i = Some (Some x) → x ≠ "" → fullAmounts s !! i = Some x) ∧
    (amounts s !! i = None ∨ amounts s !! i = Some None ∨
     amounts s !! i = Some (Some "") →
     fullAmounts s !! i = Some "0") ∧
    is_Some (fullAmounts s !! i).
Proof.
  split; [apply fullAmounts_length|].
  intros i Hi. rewrite (fullAmounts_lookup s i Hi). repeat split.
  - intros x Hx Hne. by rewrite (index_or_present _ _ _ _ Hx Hne).
  - intros Habsent. by rewrite (index_or_absent _ _ _ Habsent).
  - eauto.
Qed.

(** *** batchSwapAmountMap *)

Lemma map_result_Returned {A B} (f : nat → A → result B) (l : list A) :
  ∀ i bs,
    map_result f i l = Returned bs →
    length bs = length l ∧
    ∀ j a, l !! j = Some a → ∃ b, bs !! j = Some b ∧ f (i + j)%nat a = Returned b.
Proof.
  induction l as [|a l IH]; intros i bs; simpl.
  - intros [= <-]. split; [done|]. intros j a Hj. by rewrite lookup_nil in Hj.
  - destruct (f i a) as [b|] eqn:Hb; [|done]. simpl.
    destruct (map_result f (S i) l) as [bs'|] eqn:Hbs; [|done]. simpl.
    intros [= <-]. destruct (IH _ _ Hbs) as [Hlen Hlook].
    split; [simpl; by rewrite Hlen|].
    intros [|j] a' Hj; simpl in *.
    + injection Hj as <-. exists b. by rewrite Nat.add_0_r.
    + destruct (Hlook j a' Hj) as (b' & ? & ?). exists b'.
      by rewrite Nat.add_succ_r.
Qed.

Lemma map_result_total {A B} (f : nat → A → result B) (l : list A) :
  ∀ i,
    (∀ j a, l !! j = Some a → ∃ b, f (i + j)%nat a = Returned b) →
    ∃ bs, map_result f i l = Returned bs.
Proof.
  induction l as [|a l IH]; intros i Hf; simpl; [by eexists|].
  destruct (Hf 0%nat a eq_refl) as [b Hb]. rewrite Nat.add_0_r in Hb.
  rewrite Hb. simpl.
  destruct (IH (S i)) as [bs Hbs].
  { intros j a' Hj. destruct (Hf (S j) a' Hj) as [b' Hb'].
    exists b'. by rewrite Nat.add_succ_r in Hb'. }
  rewrite Hbs. simpl. by eexists.
Qed.

Lemma foldl_insert_lookup_notin (entries : list (string * Z)) :
  ∀ (obj : gmap string Z) k,
    k ∉ entries.*1 →
    foldl (λ obj (entry : string * Z), <[entry.1 := entry.2]> obj) obj entries
      !! k = obj !! k.
Proof.
  induction entries as [|[k' v'] entries IH]; intros obj k Hk; simpl; [done|].
  rewrite fmap_cons, not_elem_of_cons in Hk. destruct Hk as [Hne Hk].
  rewrite (IH _ _ Hk). simpl in Hne. by rewrite lookup_insert_ne.
Qed.

Lemma foldl_insert_lookup_in (entries : list (string * Z)) :
  ∀ (obj : gmap string Z) k v,
    NoDup entries.*1 → (k, v) ∈ entries →
    foldl (λ obj (entry : string * Z), <[entry.1 := entry.2]> obj) obj entries
      !! k = Some v.
Proof.
  induction entries as [|[k' v'] entries IH]; intros obj k v Hnd Hin; simpl.
  - by apply elem_of_nil in Hin.
  - rewrite fmap_cons in Hnd. apply NoDup_cons in Hnd as [Hfresh Hnd].
    apply elem_of_cons in Hin as [[= -> ->]|Hin].
    + rewrite (foldl_insert_lookup_notin _ _ _ Hfresh). simpl.
      by rewrite lookup_insert_eq.
    + by apply IH.
Qed.

Lemma Object_fromEntries_Some (entries : list (string * Z)) k v :
  NoDup entries.*1 →
  Object_fromEntries entries !! k = Some v ↔ (k, v) ∈ entries.
Proof.
  intros Hnd. unfold Object_fromEntries. split.
  - intros Hlook. destruct (decide (k ∈ entries.*1)) as [Hin|Hout].
    + apply list_elem_of_fmap in Hin as ([k' v'] & -> & Hin). simpl in *.
      rewrite (foldl_insert_lookup_in _ _ _ _ Hnd Hin) in Hlook.
      by injection Hlook as ->.
    + rewrite (foldl_insert_lookup_notin _ _ _ Hout) in Hlook.
      by rewrite lookup_empty in Hlook.
  - by apply foldl_insert_lookup_in.
Qed.

(** The pairs that [batchSwapAmountMap] builds before filtering: entry [i]
    pairs the lower-cased address at [i] with the scaled amount at [i]. *)
Lemma allTokensWithAmounts_spec (s : State) (scaled : list Z) :
  length scaled = length (tokenAddresses s) →
  ∃ entries,
    map_result
      (λ i amount,
         match tokenAddresses s !! i with
         | Some tokenAddress => Returned (toLowerCase tokenAddress, amount)
         | None => Thrown
         end) 0%nat scaled = Returned entries ∧
    entries.*1 = toLowerCase <$> tokenAddresses s ∧
    entries.*2 = scaled.
Proof.
  intros Hlen.
  destruct (map_result_total
    (λ i amount,
       match tokenAddresses s !! i with
       | Some tokenAddress => Returned (toLowerCase tokenAddress, amount)
       | None => Thrown
       end) scaled 0%nat) as [entries Hentries].
  { intros j a Hj. simpl.
    destruct (lookup_lt_is_Some_2 (tokenAddresses s) j) as [addr ->]; [|by eexists].
    rewrite <- Hlen. by eapply lookup_lt_Some. }
  exists entries. split; [done|].
  destruct (map_result_Returned _ _ _ _ Hentries) as [Hlen' Hlook].
  split; apply list_eq; intros j; rewrite !list_lookup_fmap.
  - destruct (scaled !! j) as [a|] eqn:Hj.
    + destruct (Hlook j a Hj) as (b & -> & Hb). simpl in *.
      destruct (tokenAddresses s !! j); [|done]. by injection Hb as <-.
    + apply lookup_ge_None in Hj.
      rewrite (proj2 (lookup_ge_None entries j)) by lia.
      rewrite (proj2 (lookup_ge_None (tokenAddresses s) j)) by lia. done.
  - destruct (scaled !! j) as [a|] eqn:Hj.
    + destruct (Hlook j a Hj) as (b & -> & Hb). simpl in *.
      destruct (tokenAddresses s !! j); [|done]. by injection Hb as <-.
    + apply lookup_ge_None in Hj.
      by rewrite (proj2 (lookup_ge_None entries j)) by lia.
Qed.

Lemma fullAmountsScaled_length (s : State) (scaled : list Z) :
  fullAmountsScaled s = Returned scaled →
  length scaled = length (tokenAddresses s).
Proof.
  intros Hscaled. apply map_result_Returned in Hscaled as [-> _].
  apply fullAmounts_length.
Qed.

(** Whenever the scaled amounts can be computed, so can the amount map. *)
Lemma batchSwapAmountMap_returns (s : State) (scaled : list Z) :
  fullAmountsScaled s = Returned scaled →
  ∃ amountMap, batchSwapAmountMap s = Returned amountMap.
Proof.
  intros Hscaled. unfold batchSwapAmountMap. rewrite Hscaled. simpl.
  destruct (allTokensWithAmounts_spec s scaled) as (entries & -> & _).
  { by apply fullAmountsScaled_length. }
  simpl. by eexists.
Qed.

(** C5, amended: when the lower-cased token addresses are pairwise distinct,
    the lower-cased address at index [i] is a key of [batchSwapAmountMap]
    exactly when the scaled amount at [i] is greater than zero, and it then
    maps to that amount; and the map exists whenever the scaled amounts
    do. *)
Theorem batchSwapAmountMap_keys (s : State) :
  NoDup (toLowerCase <$> tokenAddresses s) →
  (∀ scaled, fullAmountsScaled s = Returned scaled →
     ∃ amountMap, batchSwapAmountMap s = Returned amountMap) ∧
  batchSwapAmountMap_stated s.
Proof.
  intros Hnd. split; [apply batchSwapAmountMap_returns|].
  intros amountMap scaled Hmap Hscaled i tokenAddress amount Haddr Hamount.
  unfold batchSwapAmountMap in Hmap. rewrite Hscaled in Hmap. simpl in Hmap.
  destruct (allTokensWithAmounts_spec s scaled) as (entries & Hentries & Hkeys & Hvals).
  { by apply fullAmountsScaled_length. }
  rewrite Hentries in Hmap. simpl in Hmap. injection Hmap as <-.
  assert (NoDup (filter (λ entry : string * Z, 0 < entry.2) entries).*1) as Hnd'.
  { apply (sublist_NoDup _ entries.*1); [rewrite Hkeys; exact Hnd|].
    apply fmap_sublist, sublist_filter. }
  assert (entries !! i = Some (toLowerCase tokenAddress, amount)) as Hi.
  { assert (entries.*1 !! i = Some (toLowerCase tokenAddress)) as Hk.
    { by rewrite Hkeys, list_lookup_fmap, Haddr. }
    assert (entries.*2 !! i = Some amount) as Hv by by rewrite Hvals.
    rewrite list_lookup_fmap in Hk. rewrite list_lookup_fmap in Hv.
    destruct (entries !! i) as [[k v]|]; [|done]. simpl in *. congruence. }
  assert (∀ v, (toLowerCase tokenAddress, v) ∈ entries → v = amount) as Honly.
  { intros v [j Hj]%list_elem_of_lookup.
    assert (j = i) as ->.
    { eapply NoDup_lookup; [exact Hnd| |].
      - rewrite <- Hkeys, list_lookup_fmap, Hj. done.
      - by rewrite list_lookup_fmap, Haddr. }
    congruence. }
  assert (0 < amount →
    Object_fromEntries (filter (λ entry : string * Z, 0 < entry.2) entries)
      !! toLowerCase tokenAddress = Some amount) as Hpos.
  { intros Hgt. apply Object_fromEntries_Some; [done|].
    apply list_elem_of_filter. split; [done|]. by eapply list_elem_of_lookup_2. }
  split; [split|done].
  - intros [v Hv]. apply Object_fromEntries_Some in Hv; [|done].
    apply list_elem_of_filter in Hv as [Hgt Hin]. simpl in Hgt.
    by rewrite <- (Honly v Hin).
  - intros Hgt. rewrite (Hpos Hgt). eauto.
Qed.

(** *** priceImpact *)

Lemma some_true {A} (p : A → bool) (a : list A) :
  some p a = true ↔ Exists (λ x, p x = true) a.
Proof.
  induction a as [|x a IH]; simpl.
  - split; [done|]. by intros ?%Exists_nil.
  - rewrite Exists_cons. destruct (p x); [tauto|].
    rewrite IH. split; [tauto|]. by intros [?|?].
Qed.

Lemma some_false {A} (p : A → bool) (a : list A) :
  some p a = false ↔ Forall (λ x, p x = false) a.
Proof.
  induction a as [|x a IH]; simpl.
  - split; [constructor|done].
  - rewrite Forall_cons. destruct (p x); [|tauto].
    split; [done|]. by intros [? _].
Qed.

(** Amounts that are all zero are amounts of which none is positive. *)
Lemma zero_amounts_not_positive (a : list string) :
  Forall (λ amount, bn_eq (bnum amount) bn_zero = true) a →
  Forall (λ amount, bn_gt (bnum amount) bn_zero = false) a.
Proof.
  intros Hzero. eapply Forall_impl; [exact Hzero|].
  intros amount. apply bn_eq_not_gt.
Qed.

(** C1, amended: [priceImpact] is 0 when no entry of [fullAmounts] is greater
    than zero, so in particular when every entry is zero; when some entry is
    greater than zero it is the number the calculator's [priceImpact] gives
    for [fullAmounts], with 0 in the place of a falsy number, and 100 when
    the calculator throws. *)
Theorem priceImpact_delegates (s : State) :
  (Forall (λ amount, bn_gt (bnum amount) bn_zero = false) (fullAmounts s) →
   priceImpact s = number_of_Z 0) ∧
  (Forall (λ amount, bn_eq (bnum amount) bn_zero = true) (fullAmounts s) →
   priceImpact s = number_of_Z 0) ∧
  (Exists (λ amount, bn_gt (bnum amount) bn_zero = true) (fullAmounts s) →
   match poolCalculator_priceImpact (pool s) (useNativeAsset s) (fullAmounts s) with
   | Returned impact =>
       priceImpact s =
       if number_truthy (bn_toNumber impact) then bn_toNumber impact
       else number_of_Z 0
   | Thrown => priceImpact s = number_of_Z 100
   end).
Proof.
  assert (Forall (λ amount, bn_gt (bnum amount) bn_zero = false) (fullAmounts s) →
          priceImpact s = number_of_Z 0) as Hnone.
  { intros Hforall%some_false. unfold priceImpact, hasAmounts. by rewrite Hforall. }
  split; [exact Hnone|]. split.
  - intros Hzero. by apply Hnone, zero_amounts_not_positive.
  - intros Hexists%some_true. unfold priceImpact, hasAmounts. rewrite Hexists. simpl.
    by destruct (poolCalculator_priceImpact _ _ _).
Qed.

(** *** bptOut *)

(** C2: with a batch swap result, [bptOut] comes from the absolute value of
    its [amountTokenOut]; without one, from the calculator's
    [exactTokensInForBPTOut] of [fullAmounts]; either value is printed after
    [minusSlippageScaled], and as it is when the pool is a managed pool with
    trading halted. *)
Theorem bptOut_delegates (s : State) :
  let net (raw : Z) :=
    BigNumber_toString
      (if managedPoolWithTradingHalted (pool s) then raw
       else minusSlippageScaled raw) in
  (∀ swap amount,
     batchSwap s = Some swap →
     BigNumber_from (amountTokenOut swap) = Returned amount →
     bptOut s = Returned (net (Z.abs amount))) ∧
  (∀ out amount,
     batchSwap s = None →
     poolCalculator_exactTokensInForBPTOut
       (pool s) (useNativeAsset s) (fullAmounts s) = Returned out →
     BigNumber_from (bn_toString out) = Returned amount →
     bptOut s = Returned (net amount)).
Proof.
  intros net. unfold bptOut. split.
  - intros swap amount -> ->. simpl. subst net.
    by destruct (managedPoolWithTradingHalted (pool s)).
  - intros out amount -> -> . simpl. intros ->. simpl. subst net.
    by destruct (managedPoolWithTradingHalted (pool s)).
Qed.

(** *** The watcher of fullAmounts *)

Lemma findIndex_found {A} (p : A → nat → bool) (a : list A) :
  ∀ i k x,
    a !! k = Some x →
    p x (i + k)%nat = true →
    (∀ j y, (j < k)%nat → a !! j = Some y → p y (i + j)%nat = false) →
    findIndex p i a = Z.of_nat (i + k).
Proof.
  induction a as [|x' a IH]; intros i k x Hk Hp Hbefore; [done|].
  destruct k as [|k]; simpl in *.
  - injection Hk as ->. rewrite Nat.add_0_r in *. by rewrite Hp.
  - rewrite <- (Nat.add_0_r i) at 1.
    rewrite (Hbefore 0%nat x' ltac:(lia) eq_refl).
    rewrite (IH (S i) k x Hk).
    + f_equal. lia.
    + by rewrite Nat.add_succ_comm.
    + intros j y Hj Hy. rewrite Nat.add_succ_comm.
      apply Hbefore; [lia|done].
Qed.

Lemma findIndex_none {A} (p : A → nat → bool) (a : list A) :
  ∀ i,
    (∀ j y, a !! j = Some y → p y (i + j)%nat = false) →
    findIndex p i a = -1.
Proof.
  induction a as [|x a IH]; intros i Hnone; [done|]. simpl.
  rewrite <- (Nat.add_0_r i) at 1. rewrite (Hnone 0%nat x eq_refl).
  apply IH. intros j y Hy. rewrite Nat.add_succ_comm. by apply Hnone.
Qed.

Lemma getBatchSwap_proportionalAmounts (answer : result BatchSwap) (s : State) :
  proportionalAmounts (getBatchSwap answer s) = proportionalAmounts s.
Proof.
  unfold getBatchSwap. by destruct (batchSwapAmountMap s), answer.
Qed.

(** C4: when [fullAmounts] is recomputed, [proportionalAmounts] becomes the
    [send] amounts that [propAmountsGiven] returns for the first index whose
    entry differs from the one before (asked with the new amount at that
    index, for ['send']); when no entry differs, [proportionalAmounts] stays
    as it is. *)
Theorem proportionalAmounts_follow_change
    (answer : result BatchSwap) (before s : State) :
  let s' := fullAmounts_changed answer before s in
  (∀ i amount given,
     fullAmounts s !! i = Some amount →
     fullAmounts before !! i ≠ Some amount →
     (∀ j unchanged, (j < i)%nat →
        fullAmounts s !! j = Some unchanged →
        fullAmounts before !! j = Some unchanged) →
     poolCalculator_propAmountsGiven (pool s) (useNativeAsset s) amount i "send"
     = Returned given →
     proportionalAmounts s' = send given) ∧
  ((∀ j unchanged,
      fullAmounts s !! j = Some unchanged →
      fullAmounts before !! j = Some unchanged) →
   proportionalAmounts s' = proportionalAmounts s).
Proof.
  intros s'. subst s'. unfold fullAmounts_changed, watch_fullAmounts. split.
  - intros i amount given Hi Hchanged Hbefore Hgiven.
    rewrite (findIndex_found _ _ 0%nat i amount Hi).
    + simpl. rewrite Nat2Z.id.
      destruct (0 <=? Z.of_nat i)%Z eqn:Hle; [|apply Z.leb_gt in Hle; lia].
      rewrite Hi, Hgiven. simpl.
      destruct (shouldFetchBatchSwap _); [|done].
      by rewrite getBatchSwap_proportionalAmounts.
    + simpl. by apply bool_decide_eq_true.
    + intros j y Hj Hy. simpl. apply bool_decide_eq_false.
      intros Hne. apply Hne. by eapply Hbefore.
  - intros Hsame. rewrite (findIndex_none _ _ 0%nat).
    + simpl. destruct (shouldFetchBatchSwap s); [|done].
      by rewrite getBatchSwap_proportionalAmounts.
    + intros j y Hy. simpl. apply bool_decide_eq_false.
      intros Hne. apply Hne. by apply Hsame.
Qed.

(** *** maximizeAmounts and maximized *)

Lemma Array_set_length {A} (i : nat) (x : A) (a : list (option A)) :
  (length a ≤ length (Array_set i x a))%nat ∧ (i < length (Array_set i x a))%nat.
Proof.
  unfold Array_set. destruct (decide (i < length a)%nat).
  - rewrite length_insert. lia.
  - rewrite !length_app, length_replicate. simpl. lia.
Qed.

Lemma Array_set_lookup {A} (i : nat) (x : A) (a : list (option A)) :
  Array_set i x a !! i = Some (Some x).
Proof.
  unfold Array_set. destruct (decide (i < length a)%nat).
  - by apply list_lookup_insert_eq.
  - rewrite lookup_app_r by lia. rewrite lookup_app_r; rewrite length_replicate; [|lia].
    by replace (i - length a - (i - length a))%nat with 0%nat by lia.
Qed.

Lemma Array_set_lookup_other {A} (i j : nat) (x : A) (a : list (option A)) :
  j ≠ i → (j < length a)%nat → Array_set i x a !! j = a !! j.
Proof.
  intros Hne Hj. unfold Array_set. destruct (decide (i < length a)%nat).
  - by apply list_lookup_insert_ne.
  - by apply lookup_app_l.
Qed.

Lemma maximizeAmounts_at_assigns (s : State) (x : string) (i : nat)
    (a : list (option string)) (tokenAddress : string) :
  tokenAddresses s !! i = Some tokenAddress →
  maximizeAmounts_at s x i a = Array_set i (maximal_amount tokenAddress) a.
Proof.
  intros Haddr. unfold maximizeAmounts_at, maximal_amount. rewrite Haddr.
  destruct (decide (tokenAddress = address nativeAsset)); [|done].
  by destruct (bn_gt _ _).
Qed.

(** The loop of [maximizeAmounts] over the indices from [i] on leaves the
    entries it has passed as they are. *)
Lemma maximizeAmounts_loop_before (s : State) (l : list string) :
  ∀ i a j,
    (j < i)%nat → (j < length a)%nat →
    (i + length l ≤ length (tokenAddresses s))%nat →
    (j < length (forEach (maximizeAmounts_at s) i l a))%nat ∧
    forEach (maximizeAmounts_at s) i l a !! j = a !! j.
Proof.
  induction l as [|x l IH]; intros i a j Hji Hj Hlen; simpl in *; [done|].
  destruct (lookup_lt_is_Some_2 (tokenAddresses s) i) as [t Ht]; [lia|].
  rewrite (maximizeAmounts_at_assigns s x i a t Ht).
  destruct (Array_set_length i (maximal_amount t) a) as [Hge _].
  destruct (IH (S i) (Array_set i (maximal_amount t) a) j) as [Hlt ->]; [lia..|].
  split; [done|]. apply Array_set_lookup_other; lia.
Qed.

(** ... and puts the maximal amount at each index it visits. *)
Lemma maximizeAmounts_loop_at (s : State) (l : list string) :
  ∀ i a j tokenAddress,
    (i ≤ j < i + length l)%nat →
    (i + length l ≤ length (tokenAddresses s))%nat →
    tokenAddresses s !! j = Some tokenAddress →
    forEach (maximizeAmounts_at s) i l a !! j
    = Some (Some (maximal_amount tokenAddress)).
Proof.
  induction l as [|x l IH]; intros i a j t Hj Hlen Ht; simpl in *; [lia|].
  destruct (decide (j = i)) as [->|Hne].
  - rewrite (maximizeAmounts_at_assigns s x i a t Ht).
    destruct (Array_set_length i (maximal_amount t) a) as [_ Hlt].
    destruct (maximizeAmounts_loop_before s l (S i)
                (Array_set i (maximal_amount t) a) i) as [_ ->]; [lia..|].
    apply Array_set_lookup.
  - apply IH; [lia|lia|done].
Qed.

Lemma every_true {A} (p : A → nat → bool) (a : list A) :
  ∀ i, (∀ j x, a !! j = Some x → p x (i + j)%nat = true) → every p i a = true.
Proof.
  induction a as [|x a IH]; intros i Hall; simpl; [done|].
  rewrite <- (Nat.add_0_r i) at 1. rewrite (Hall 0%nat x eq_refl).
  apply IH. intros j y Hy. rewrite Nat.add_succ_comm. by apply Hall.
Qed.

(** After [maximizeAmounts], [maximized] is true as long as the native asset,
    when it is one of the tokens, has a balance above the transaction buffer
    (and the difference does not print as the empty string), and no other
    token has an empty balance. *)
Lemma maximized_after_maximizeAmounts (s : State) :
  (address nativeAsset ∈ tokenAddresses s →
   bn_gt (bnum (balanceFor (address nativeAsset)))
         (bnum (minTransactionBuffer nativeAsset)) = true ∧
   bn_toString
     (bn_minus (bnum (balanceFor (address nativeAsset)))
        (bnum (minTransactionBuffer nativeAsset))) ≠ "") →
  (∀ tokenAddress,
     tokenAddress ∈ tokenAddresses s → tokenAddress ≠ address nativeAsset →
     balanceFor tokenAddress ≠ "") →
  maximized (maximizeAmounts s) = true.
Proof.
  intros Hnative Hother. unfold maximized. apply every_true.
  intros j x Hx. simpl.
  assert (j < length (tokenAddresses s))%nat as Hj.
  { change (tokenAddresses s) with (tokenAddresses (maximizeAmounts s)).
    rewrite <- fullAmounts_length. by eapply lookup_lt_Some. }
  destruct (lookup_lt_is_Some_2 (tokenAddresses s) j Hj) as [t Ht].
  rewrite (fullAmounts_lookup (maximizeAmounts s) j Hj) in Hx.
  injection Hx as <-.
  unfold index_or, maximized_at. simpl.
  rewrite (maximizeAmounts_loop_at s (fullAmounts s) 0%nat (amounts s) j t),
    Ht; [|rewrite fullAmounts_length; lia..|done].
  assert (t ∈ tokenAddresses s) as Hin by by eapply list_elem_of_lookup_2.
  unfold maximal_amount.
  destruct (decide (t = address nativeAsset)) as [->|Hne].
  - destruct (Hnative Hin) as [-> Hprint].
    rewrite decide_False by done. by apply bool_decide_eq_true.
  - rewrite decide_False by by apply Hother. by apply bool_decide_eq_true.
Qed.

End Facts.

(** *** The properties on the sample environment *)

#[local] Existing Instance Sample.sample_JavaScript.
#[local] Existing Instance Sample.sample_BigNumberJs.
#[local] Existing Instance Sample.sample_Ethers.

(** C5 holds for two different tokens. *)
Lemma batchSwapAmountMap_keys_two_tokens :
  NoDup (@toLowerCase Sample.sample_JavaScript
           <$> tokenAddresses Sample.two_tokens) ∧
  (∀ scaled,
     fullAmountsScaled (H2 := Sample.sample_Ethers) Sample.two_tokens
     = Returned scaled →
     ∃ amountMap,
       batchSwapAmountMap (H2 := Sample.sample_Ethers) Sample.two_tokens
       = Returned amountMap) ∧
  batchSwapAmountMap_stated (H2 := Sample.sample_Ethers) Sample.two_tokens.
Proof.
  assert (NoDup (@toLowerCase Sample.sample_JavaScript
                   <$> tokenAddresses Sample.two_tokens)) as Hnd.
  { apply (bool_decide_unpack _). vm_compute. exact I. }
  split; [exact Hnd|].
  exact (batchSwapAmountMap_keys (H2 := Sample.sample_Ethers) Sample.two_tokens Hnd).
Defined.

(** C5 as the specification states it fails when one token is listed twice:
    the second index has a zero amount, yet its lower-cased address is a key,
    put there by the first. *)
Lemma batchSwapAmountMap_stated_fails :
  ¬ batchSwapAmountMap_stated (H2 := Sample.sample_Ethers) Sample.one_token_twice.
Proof.
  intros Hstated.
  destruct (batchSwapAmountMap (H2 := Sample.sample_Ethers) Sample.one_token_twice)
    as [amountMap|] eqn:Hmap; [|by vm_compute in Hmap].
  assert (fullAmountsScaled (H2 := Sample.sample_Ethers) Sample.one_token_twice
          = Returned [10 ^ 18; 0]) as Hscaled by (vm_compute; reflexivity).
  destruct (Hstated amountMap _ Hmap Hscaled 1%nat "0xab" 0 eq_refl eq_refl)
    as [[Hkey _] _].
  assert (is_Some (amountMap !! "0xab")) as Hsome.
  { vm_compute in Hmap. injection Hmap as <-. vm_compute. eauto. }
  apply Hkey in Hsome. lia.
Qed.

(** C1 on a calculator that answers 0.03: an amount of one gives 0.03, an
    amount of zero gives 0. *)
Lemma priceImpact_delegates_sample :
  (Exists (λ amount, bn_gt (bnum amount) bn_zero = true)
     (fullAmounts Sample.amount_one) ∧
   priceImpact Sample.amount_one = Some {| Sample.coefficient := 3; Sample.places := 2 |}) ∧
  (Forall (λ amount, bn_eq (bnum amount) bn_zero = true)
     (fullAmounts Sample.amount_zero) ∧
   priceImpact Sample.amount_zero = number_of_Z 0).
Proof.
  split.
  - assert (Exists (λ amount, bn_gt (bnum amount) bn_zero = true)
              (fullAmounts Sample.amount_one)) as Hpositive.
    { apply (bool_decide_unpack _). vm_compute. exact I. }
    split; [exact Hpositive|].
    exact (proj2 (proj2 (priceImpact_delegates Sample.amount_one)) Hpositive).
  - assert (Forall (λ amount, bn_eq (bnum amount) bn_zero = true)
              (fullAmounts Sample.amount_zero)) as Hzero.
    { apply (bool_decide_unpack _). vm_compute. exact I. }
    split; [exact Hzero|].
    exact (proj1 (proj2 (priceImpact_delegates Sample.amount_zero)) Hzero).
Defined.

(** C1 as the specification states it fails on an amount of minus one: not
    every entry is zero, yet the calculator is not asked and the price impact
    is 0, not the calculator's 0.03. *)
Lemma priceImpact_stated_fails :
  priceImpact Sample.amount_negative = number_of_Z 0 ∧
  priceImpact_stated Sample.amount_negative
  = Some {| Sample.coefficient := 3; Sample.places := 2 |} ∧
  priceImpact Sample.amount_negative ≠ priceImpact_stated Sample.amount_negative.
Proof.
  split; [by vm_compute|]. split; [by vm_compute|].
  vm_compute. discriminate.
Qed.

(** C7 on a pool of two tokens with one amount typed in: the first entry is
    that amount, the second is ['0']. *)
Lemma fullAmounts_total_sample :
  length (fullAmounts Sample.first_typed) = 2%nat ∧
  fullAmounts Sample.first_typed !! 0%nat = Some "1" ∧
  fullAmounts Sample.first_typed !! 1%nat = Some "0".
Proof.
  destruct (fullAmounts_total Sample.first_typed) as [Hlength Hentries].
  split; [exact Hlength|]. split.
  - destruct (Hentries 0%nat) as (Hpresent & _ & _); [simpl; lia|].
    apply Hpresent; [reflexivity|discriminate].
  - destruct (Hentries 1%nat) as (_ & Habsent & _); [simpl; lia|].
    apply Habsent. left. reflexivity.
Defined.

(** C2 with one percent of slippage: a batch swap giving 1000 out leaves 990,
    and without it the calculator's 2000 leaves 1980. *)
Lemma bptOut_delegates_sample :
  bptOut Sample.with_swap = Returned "990" ∧
  bptOut Sample.without_swap = Returned "1980".
Proof.
  split.
  - exact (proj1 (bptOut_delegates Sample.with_swap)
             {| amountTokenOut := "-1000"; swaps := []; assets := ["0xab"] |}
             (-1000) eq_refl eq_refl).
  - exact (proj2 (bptOut_delegates Sample.without_swap)
             (Some {| Sample.coefficient := 2000; Sample.places := 0 |})
             2000 eq_refl eq_refl eq_refl).
Defined.

(** C4 on a pool of two tokens: typing 7 as the second amount asks the
    calculator about index 1; recomputing the same amounts changes
    nothing. *)
Lemma proportionalAmounts_follow_change_sample :
  proportionalAmounts
    (fullAmounts_changed Thrown Sample.first_typed Sample.second_typed) = ["7"] ∧
  proportionalAmounts
    (fullAmounts_changed Thrown Sample.second_typed Sample.second_typed) = [].
Proof.
  split.
  - refine (proj1 (proportionalAmounts_follow_change
                     Thrown Sample.first_typed Sample.second_typed)
              1%nat "7"
              {| send := ["7"]; receive := []; fixedToken := 1%nat |}
              eq_refl _ _ eq_refl).
    + vm_compute. discriminate.
    + intros [|j] unchanged Hj; [|lia]. vm_compute. exact id.
  - refine (proj2 (proportionalAmounts_follow_change
                     Thrown Sample.second_typed Sample.second_typed) _).
    intros j unchanged. exact id.
Defined.

(** C9, on a wallet whose native balance is below the transaction buffer:
    [maximizeAmounts] sets the amount to ['0'], [maximized] compares it with
    the balance less the buffer, ['-0.04'], and is false. *)
Theorem maximizeAmounts_not_maximized :
  amounts (maximizeAmounts Sample.small_native_balance) = [Some "0"] ∧
  fullAmounts (maximizeAmounts Sample.small_native_balance) = ["0"] ∧
  (let wallet := Sample.sample_Services "0.01" Thrown in
   bn_toString
     (bn_minus
        (bnum (@balanceFor _ _ wallet (address (@nativeAsset _ _ wallet))))
        (bnum (minTransactionBuffer (@nativeAsset _ _ wallet)))) = "-0.04") ∧
  maximized (maximizeAmounts Sample.small_native_balance) = false.
Proof.
  repeat split; vm_compute; reflexivity.
Qed.

End InvestMathFacts.

(** ** More properties of usePoolCreation.ts *)

Module PoolCreationMoreFacts.

Import PoolCreation PoolCreationRest.

Section Runs.

Variable Array_sort :
  (TokenWeight → TokenWeight → Z) → list TokenWeight → list TokenWeight.

(** Every reachable [createState] is one of the four members of
    [CreateState]. *)
Theorem reachable_createState (s : State) :
  reachable Array_sort s → createState s ∈ CreateState.
Proof.
  induction 1 as [|a s _ IH].
  - apply list_elem_of_In. simpl. tauto.
  - destruct a as [| | | | | | | | | |details| | | | |]; simpl; try exact IH;
      try (apply list_elem_of_In; simpl; tauto).
    destruct details; [apply list_elem_of_In; simpl; tauto|exact IH].
Qed.

(** [activeStep] never goes below zero. *)
Theorem reachable_activeStep (s : State) :
  reachable Array_sort s → (0 ≤ activeStep s)%Z.
Proof.
  induction 1 as [|a s _ IH]; [done|].
  destruct a as [| | | | | | | | | |details| | | | |]; simpl; try exact IH;
    try lia.
  by destruct details.
Qed.

(** As long as [createState] is still ['none'], no pool id and no pool
    address have been recorded. *)
Theorem reachable_none_no_pool (s : State) :
  reachable Array_sort s →
  createState s = "none" → poolId s = "" ∧ poolAddress s = "".
Proof.
  induction 1 as [|a s _ IH]; [done|].
  destruct a as [| | | | | | | | | |details| | | | |]; simpl; try exact IH;
    try discriminate.
  destruct details; [discriminate|exact IH].
Qed.

(** A run of [createPool] ends with [createState] still ['creating'] exactly
    when the transaction was submitted and then either no callback ran, or
    it was confirmed and fetching the pool details threw; the pool id and
    address are then the ones from before. *)
Theorem createPool_left_creating (run : CreateRun) (s : State) :
  let s' := (createPool Array_sort run s).2 in
  (createState s' = "creating" ↔
   (∃ tx, create_submit run = Returned tx) ∧
   (create_outcome run = TxPending ∨
    create_outcome run = TxConfirmed ∧ create_details run = Thrown)) ∧
  (createState s' = "creating" →
   poolId s' = poolId s ∧ poolAddress s' = poolAddress s).
Proof.
  destruct run as [submit outcome details]. simpl.
  destruct submit as [tx|]; [destruct outcome; [destruct details|..]|]; simpl.
  - split; [split|]; [discriminate| |discriminate].
    intros [_ [Hpending|[_ Hthrown]]]; discriminate.
  - split; [split|]; [|done..]. intros _. split; [by exists tx|by right].
  - split; [split|]; [discriminate| |discriminate].
    intros [_ [Hpending|[Hconfirmed _]]]; discriminate.
  - split; [split|]; [|done..]. intros _. split; [by exists tx|by left].
  - split; [split|]; [discriminate| |discriminate].
    intros [[tx Hsubmit] _]. discriminate.
Qed.

(** A run of [joinPool] ends with [joinState] still ['joining'] exactly when
    the transaction was submitted and no callback has run; and it never
    touches [createState], [poolId], [poolAddress] or [activeStep]. *)
Theorem joinPool_left_joining (run : JoinRun) (s : State) :
  let s' := (joinPool Array_sort run s).2 in
  (joinState s' = "joining" ↔
   (∃ tx, join_submit run = Returned tx) ∧ join_outcome run = TxPending) ∧
  createState s' = createState s ∧ poolId s' = poolId s ∧
  poolAddress s' = poolAddress s ∧ activeStep s' = activeStep s.
Proof.
  destruct run as [submit outcome]. simpl.
  destruct submit as [tx|]; [destruct outcome|]; simpl;
    (split; [split|done]).
  - discriminate.
  - intros [_ Hpending]. discriminate.
  - discriminate.
  - intros [_ Hpending]. discriminate.
  - intros _. split; [by exists tx|done].
  - done.
  - discriminate.
  - intros [[tx Hsubmit] _]. discriminate.
Qed.

End Runs.

Section SimilarPools.

Variable Pool : Type.
Variable swapFee : Pool → string.

Lemma find_Some {A} (p : A → bool) (a : list A) (x : A) :
  find p a = Some x ↔
  ∃ i, a !! i = Some x ∧ p x = true ∧ ∀ j y, (j < i)%nat → a !! j = Some y → p y = false.
Proof.
  induction a as [|y a IH]; simpl.
  - split; [done|]. by intros (i & Hi & _).
  - destruct (p y) eqn:Hy.
    + split.
      * intros [= ->]. exists 0%nat. repeat split; [done|]. intros j ? Hj. lia.
      * intros ([|i] & Hi & Hp & Hfirst); simpl in Hi; [congruence|].
        specialize (Hfirst 0%nat y ltac:(lia) eq_refl). congruence.
    + rewrite IH. split.
      * intros (i & Hi & Hp & Hfirst). exists (S i). repeat split; [done..|].
        intros [|j] z Hj Hz; simpl in Hz; [congruence|].
        eapply Hfirst; [|done]. lia.
      * intros ([|i] & Hi & Hp & Hfirst); simpl in Hi; [congruence|].
        exists i. repeat split; [done..|]. intros j z Hj Hz.
        apply (Hfirst (S j) z); [lia|done].
Qed.

Lemma find_None {A} (p : A → bool) (a : list A) :
  find p a = None ↔ ∀ x, x ∈ a → p x = false.
Proof.
  induction a as [|y a IH]; simpl.
  - split; [|done]. by intros _ x ?%elem_of_nil.
  - destruct (p y) eqn:Hy.
    + split; [done|]. intros Hall. rewrite Hall in Hy; [done|]. by left.
    + rewrite IH. split.
      * intros Hall x [->|Hx]%elem_of_cons; [done|by apply Hall].
      * intros Hall x Hx. apply Hall. by right.
Qed.

(** [existingPool] is [null] exactly when the query has no pools; otherwise
    it is the first pool, in the order of the pages, whose swap fee is the
    initial fee, and [undefined] when no pool has that fee. *)
Theorem existingPool_first_match
    (similarPoolsResponse : option (list (Page Pool))) (s : State) :
  let found := existingPool Pool swapFee similarPoolsResponse s in
  let all := similarPools Pool similarPoolsResponse in
  (found = IsNull ↔ all = []) ∧
  (found = IsUndefined ↔
   all ≠ [] ∧ ∀ pool, pool ∈ all → swapFee pool ≠ initialFee s) ∧
  (∀ pool,
     found = Is pool ↔
     ∃ i, all !! i = Some pool ∧ swapFee pool = initialFee s ∧
          ∀ j earlier, (j < i)%nat → all !! j = Some earlier →
            swapFee earlier ≠ initialFee s).
Proof.
  intros found all. subst found. unfold existingPool. fold all.
  destruct (decide (length all = 0%nat)) as [Hempty|Hsome].
  - apply length_zero_iff_nil in Hempty. rewrite Hempty.
    split; [done|]. split.
    + split; [discriminate|]. by intros [? _].
    + intros pool. split; [discriminate|]. by intros (i & Hi & _).
  - assert (all ≠ []) as Hne by (intros Heq; by rewrite Heq in Hsome).
    destruct (find _ all) as [similarPool|] eqn:Hfind.
    + apply find_Some in Hfind as (i & Hi & Hfee%bool_decide_eq_true & Hfirst).
      split; [split; [discriminate|done]|]. split.
      * split; [discriminate|]. intros [_ Hnone]. exfalso.
        eapply Hnone; [|exact Hfee]. by eapply list_elem_of_lookup_2.
      * intros pool. split.
        -- intros [= <-]. exists i. repeat split; [done..|].
           intros j earlier Hj Hearlier.
           by apply (bool_decide_eq_false_1 _), (Hfirst j earlier).
        -- intros (i' & Hi' & Hfee' & Hfirst').
           destruct (Nat.lt_trichotomy i i') as [Hlt|[->|Hgt]].
           ++ by destruct (Hfirst' i similarPool Hlt Hi).
           ++ congruence.
           ++ specialize (Hfirst i' pool Hgt Hi').
              by apply bool_decide_eq_false in Hfirst.
    + rewrite find_None in Hfind.
      split; [split; [discriminate|done]|]. split.
      * split; [|done]. intros _. split; [done|].
        intros pool Hpool. by apply (bool_decide_eq_false_1 _), Hfind.
      * intros pool. split; [discriminate|].
        intros (i & Hi & Hfee & _).
        assert (pool ∈ all) as Hpool by by eapply list_elem_of_lookup_2.
        apply Hfind in Hpool. by apply bool_decide_eq_false in Hpool.
Qed.

End SimilarPools.

(** *** The properties on sample runs *)

(** After [proceed], [createPool] is begun: a reachable state with
    [activeStep] 1 and [createState] ['creating']. *)
Lemma reachable_createState_sample :
  let s := perform SampleRest.sample_sort DoCreatePoolBegin
             (perform SampleRest.sample_sort DoProceed poolCreationState) in
  reachable SampleRest.sample_sort s ∧ createState s ∈ CreateState.
Proof.
  simpl.
  assert (reachable SampleRest.sample_sort
            (perform SampleRest.sample_sort DoCreatePoolBegin
               (perform SampleRest.sample_sort DoProceed poolCreationState)))
    as Hreachable by (do 2 apply reachable_perform; apply reachable_initial).
  split; [exact Hreachable|].
  exact (reachable_createState SampleRest.sample_sort _ Hreachable).
Defined.

Lemma reachable_joinState_sample :
  let s := perform SampleRest.sample_sort DoJoinPoolTxFailed
             (perform SampleRest.sample_sort DoJoinPoolBegin poolCreationState) in
  reachable SampleRest.sample_sort s ∧
  joinState s ∈ ["none"; "joining"; "joined"; "failed"].
Proof.
  simpl.
  assert (reachable SampleRest.sample_sort
            (perform SampleRest.sample_sort DoJoinPoolTxFailed
               (perform SampleRest.sample_sort DoJoinPoolBegin poolCreationState)))
    as Hreachable by (do 2 apply reachable_perform; apply reachable_initial).
  split; [exact Hreachable|].
  exact (PoolCreationFacts.reachable_joinState SampleRest.sample_sort _ Hreachable).
Defined.

Lemma reachable_activeStep_sample :
  let s := perform SampleRest.sample_sort (DoSetStep 5)
             (perform SampleRest.sample_sort DoProceed poolCreationState) in
  reachable SampleRest.sample_sort s ∧ (0 ≤ activeStep s)%Z.
Proof.
  simpl.
  assert (reachable SampleRest.sample_sort
            (perform SampleRest.sample_sort (DoSetStep 5)
               (perform SampleRest.sample_sort DoProceed poolCreationState)))
    as Hreachable by (do 2 apply reachable_perform; apply reachable_initial).
  split; [exact Hreachable|].
  exact (reachable_activeStep SampleRest.sample_sort _ Hreachable).
Defined.

Lemma reachable_none_no_pool_sample :
  let s := perform SampleRest.sample_sort DoJoinPoolBegin
             (perform SampleRest.sample_sort DoProceed poolCreationState) in
  reachable SampleRest.sample_sort s ∧ createState s = "none" ∧
  poolId s = "" ∧ poolAddress s = "".
Proof.
  simpl.
  assert (reachable SampleRest.sample_sort
            (perform SampleRest.sample_sort DoJoinPoolBegin
               (perform SampleRest.sample_sort DoProceed poolCreationState)))
    as Hreachable by (do 2 apply reachable_perform; apply reachable_initial).
  split; [exact Hreachable|]. split; [reflexivity|].
  exact (reachable_none_no_pool SampleRest.sample_sort _ Hreachable eq_refl).
Defined.

(** A confirmed transaction whose pool details cannot be fetched leaves
    ['creating']. *)
Lemma createPool_left_creating_sample :
  let run := {| create_submit := Returned {| hash := "0x01" |};
                create_outcome := TxConfirmed;
                create_details := Thrown |} in
  createState (createPool SampleRest.sample_sort run poolCreationState).2
  = "creating".
Proof.
  simpl.
  apply (proj2 (proj1 (createPool_left_creating SampleRest.sample_sort
    {| create_submit := Returned {| hash := "0x01" |};
       create_outcome := TxConfirmed;
       create_details := Thrown |} poolCreationState))).
  split; [by eexists|]. right. by split.
Defined.

Lemma joinPool_left_joining_sample :
  let run := {| join_submit := Returned {| hash := "0x02" |};
                join_outcome := TxPending |} in
  joinState (joinPool SampleRest.sample_sort run poolCreationState).2
  = "joining".
Proof.
  simpl.
  apply (proj2 (proj1 (joinPool_left_joining SampleRest.sample_sort
    {| join_submit := Returned {| hash := "0x02" |};
       join_outcome := TxPending |} poolCreationState))).
  split; [by eexists|done].
Defined.

(** With an initial fee of 0.01, the pool found is the second of the first
    page. *)
Lemma existingPool_first_match_sample :
  existingPool string (λ pool, pool) SampleRest.two_pages
    SampleRest.one_percent_fee = Is "0.01".
Proof.
  apply (proj2 (proj2 (existingPool_first_match string (λ pool, pool)
    SampleRest.two_pages SampleRest.one_percent_fee))).
  exists 1%nat. split; [reflexivity|]. split; [reflexivity|].
  intros [|j] earlier Hj Hearlier; [|lia].
  injection Hearlier as <-. discriminate.
Defined.

End PoolCreationMoreFacts.

(** ** More properties of the invest-form math *)

Module InvestMathMoreFacts.

Import InvestMath InvestMathRest.

Section Facts.

Context `{Services} `{Ethers}.

Variable poolCalculator_propMax : FullPool → bool → result Amounts.

(** *** fullAmounts and tokenAmount *)

Lemma index_or_not_empty (a : list (option string)) (i : nat) (d : string) :
  d ≠ "" → index_or a i d ≠ "".
Proof.
  intros Hd. unfold index_or.
  destruct (a !! i) as [[x|]|]; [|done..]. by destruct (decide (x = "")).
Qed.

(** No entry of [fullAmounts] is the empty string. *)
Lemma fullAmounts_not_empty (s : State) (i : nat) (amount : string) :
  fullAmounts s !! i = Some amount → amount ≠ "".
Proof.
  intros Hi.
  assert (i < length (tokenAddresses s))%nat as Hlt.
  { rewrite <- InvestMathFacts.fullAmounts_length. by eapply lookup_lt_Some. }
  rewrite (InvestMathFacts.fullAmounts_lookup s i Hlt) in Hi.
  injection Hi as <-. by apply index_or_not_empty.
Qed.

Lemma fullAmounts_index_or (s : State) (i : nat) :
  (i < tokenCount s)%nat →
  fullAmounts s !! i = Some (index_or (Some <$> fullAmounts s) i "0").
Proof.
  intros Hlt. unfold tokenCount in Hlt.
  rewrite <- InvestMathFacts.fullAmounts_length in Hlt.
  destruct (lookup_lt_is_Some_2 _ _ Hlt) as [amount Hamount].
  unfold index_or. rewrite list_lookup_fmap, Hamount. simpl.
  by rewrite decide_False by by eapply fullAmounts_not_empty.
Qed.

(** [tokenAmount] reads [fullAmounts] at the indices of the pool's tokens,
    where it never finds the empty string, and is ['0'] at every other
    index. *)
Theorem tokenAmount_reads_fullAmounts (s : State) (index : nat) :
  tokenAmount s index ≠ "" ∧
  ((index < tokenCount s)%nat → fullAmounts s !! index = Some (tokenAmount s index)) ∧
  ((tokenCount s ≤ index)%nat → tokenAmount s index = "0").
Proof.
  unfold tokenAmount. split; [by apply index_or_not_empty|]. split.
  - apply fullAmounts_index_or.
  - intros Hge. unfold tokenCount in Hge.
    rewrite <- InvestMathFacts.fullAmounts_length in Hge.
    unfold index_or. rewrite list_lookup_fmap.
    by rewrite (proj2 (lookup_ge_None (fullAmounts s) index)).
Qed.

(** [fullAmounts] only reads the entries of [amounts] at the indices of the
    pool's tokens: two amounts arrays that agree there give the same
    [fullAmounts]. *)
Theorem fullAmounts_reads_token_entries (s : State) (others : list (option string)) :
  (∀ i, (i < tokenCount s)%nat → others !! i = amounts s !! i) →
  fullAmounts (set_amounts others s) = fullAmounts s.
Proof.
  intros Hagree. apply list_eq. intros i.
  destruct (decide (i < tokenCount s)%nat) as [Hlt|Hge].
  - rewrite (InvestMathFacts.fullAmounts_lookup (set_amounts others s) i Hlt).
    rewrite (InvestMathFacts.fullAmounts_lookup s i Hlt). simpl.
    unfold index_or. by rewrite (Hagree i Hlt).
  - rewrite !(proj2 (lookup_ge_None _ i));
      [done|rewrite InvestMathFacts.fullAmounts_length..]; unfold tokenCount in *;
      simpl; lia.
Qed.

(** Writing [fullAmounts] back into [amounts] changes no entry of
    [fullAmounts]. *)
Theorem fullAmounts_written_back (s : State) :
  fullAmounts (set_amounts (Some <$> fullAmounts s) s) = fullAmounts s.
Proof.
  apply list_eq. intros i.
  destruct (decide (i < tokenCount s)%nat) as [Hlt|Hge].
  - rewrite (InvestMathFacts.fullAmounts_lookup
               (set_amounts (Some <$> fullAmounts s) s) i Hlt). simpl.
    by rewrite <- fullAmounts_index_or.
  - rewrite !(proj2 (lookup_ge_None _ i));
      [done|rewrite InvestMathFacts.fullAmounts_length..]; unfold tokenCount in *;
      simpl; lia.
Qed.

(** *** maximizeAmounts *)

Lemma Array_set_lookup_after {A} (i j : nat) (x : A) (a : list (option A)) :
  (i < j)%nat → Array_set i x a !! j = a !! j.
Proof.
  intros Hij. unfold Array_set. destruct (decide (i < length a)%nat).
  - apply list_lookup_insert_ne. lia.
  - rewrite !(proj2 (lookup_ge_None _ j)); [done|lia|].
    rewrite !length_app, length_replicate. simpl. lia.
Qed.

Lemma Array_set_grows {A} (i : nat) (x : A) (a : list (option A)) :
  length (Array_set i x a) = (length a `max` S i)%nat.
Proof.
  unfold Array_set. destruct (decide (i < length a)%nat).
  - rewrite length_insert. lia.
  - rewrite !length_app, length_replicate. simpl. lia.
Qed.

Lemma Array_set_same {A} (i : nat) (x : A) (a : list (option A)) :
  a !! i = Some (Some x) → Array_set i x a = a.
Proof.
  intros Hi. unfold Array_set.
  rewrite decide_True by by eapply lookup_lt_Some.
  by apply list_insert_id.
Qed.

(** The loop of [maximizeAmounts] over the indices from [i] on leaves the
    entries past the last index as they are, and grows the array to that
    index at most. *)
Lemma maximizeAmounts_loop_after (s : State) (l : list string) :
  ∀ i a,
    (i ≤ length a)%nat →
    (i + length l ≤ length (tokenAddresses s))%nat →
    length (forEach (maximizeAmounts_at s) i l a)
    = (length a `max` (i + length l))%nat ∧
    ∀ j, (i + length l ≤ j)%nat →
      forEach (maximizeAmounts_at s) i l a !! j = a !! j.
Proof.
  induction l as [|x l IH]; intros i a Hi Hlen; simpl in *.
  - split; [lia|done].
  - destruct (lookup_lt_is_Some_2 (tokenAddresses s) i) as [t Ht]; [lia|].
    rewrite (InvestMathFacts.maximizeAmounts_at_assigns s x i a t Ht).
    destruct (IH (S i) (Array_set i (maximal_amount t) a)) as [Hgrow Hafter].
    { rewrite Array_set_grows. lia. }
    { lia. }
    split.
    + rewrite Hgrow, Array_set_grows. lia.
    + intros j Hj. rewrite Hafter by lia. apply Array_set_lookup_after. lia.
Qed.

(** [maximizeAmounts] puts, at the index of every token, the amount that is
    maximal for it; the entries of [amounts] past the tokens stay, and the
    array grows to the token count when it was shorter. *)
Theorem maximizeAmounts_assigns (s : State) :
  let assigned := amounts (maximizeAmounts s) in
  (∀ i tokenAddress,
     tokenAddresses s !! i = Some tokenAddress →
     assigned !! i = Some (Some (maximal_amount tokenAddress))) ∧
  (∀ i, (tokenCount s ≤ i)%nat → assigned !! i = amounts s !! i) ∧
  length assigned = (length (amounts s) `max` tokenCount s)%nat.
Proof.
  simpl. unfold tokenCount.
  pose proof (InvestMathFacts.fullAmounts_length s) as Hlen.
  destruct (maximizeAmounts_loop_after s (fullAmounts s) 0%nat (amounts s))
    as [Hgrow Hafter]; [lia..|].
  split; [|split].
  - intros i t Ht.
    apply InvestMathFacts.maximizeAmounts_loop_at; [|lia|done].
    apply lookup_lt_Some in Ht. lia.
  - intros i Hi. apply Hafter. lia.
  - rewrite Hgrow. lia.
Qed.

Lemma maximizeAmounts_loop_fixed (s : State) (l : list string) :
  ∀ i a,
    (i + length l ≤ length (tokenAddresses s))%nat →
    (∀ j tokenAddress,
       tokenAddresses s !! j = Some tokenAddress →
       a !! j = Some (Some (maximal_amount tokenAddress))) →
    forEach (maximizeAmounts_at s) i l a = a.
Proof.
  induction l as [|x l IH]; intros i a Hlen Hset; simpl in *; [done|].
  destruct (lookup_lt_is_Some_2 (tokenAddresses s) i) as [t Ht]; [lia|].
  rewrite (InvestMathFacts.maximizeAmounts_at_assigns s x i a t Ht).
  rewrite (Array_set_same i _ a (Hset i t Ht)).
  apply IH; [lia|done].
Qed.

(** Calling [maximizeAmounts] a second time changes nothing. *)
Theorem maximizeAmounts_twice (s : State) :
  maximizeAmounts (maximizeAmounts s) = maximizeAmounts s.
Proof.
  unfold maximizeAmounts at 1.
  change (maximizeAmounts_at (maximizeAmounts s)) with (maximizeAmounts_at s).
  rewrite maximizeAmounts_loop_fixed; [done| |].
  - rewrite InvestMathFacts.fullAmounts_length. simpl. lia.
  - intros j t Ht. simpl.
    apply InvestMathFacts.maximizeAmounts_loop_at; [|
      rewrite InvestMathFacts.fullAmounts_length; lia|done].
    rewrite InvestMathFacts.fullAmounts_length.
    apply lookup_lt_Some in Ht. lia.
Qed.

(** *** optimizeAmounts and optimized *)

(** When [propMax] returns an amount that is not empty for every token,
    [optimizeAmounts] makes [optimized] true; when [propMax] throws, both
    throw and nothing is assigned. *)
Theorem optimized_after_optimizeAmounts (s : State) :
  (∀ given,
     poolCalculator_propMax (pool s) (useNativeAsset s) = Returned given →
     (∀ i, (i < tokenCount s)%nat →
        ∃ amount, send given !! i = Some amount ∧ amount ≠ "") →
     ∃ s', optimizeAmounts poolCalculator_propMax s = Returned s' ∧
           fullAmounts s' = take (tokenCount s) (send given) ∧
           optimized poolCalculator_propMax s' = Returned true) ∧
  (poolCalculator_propMax (pool s) (useNativeAsset s) = Thrown →
   optimizeAmounts poolCalculator_propMax s = Thrown ∧
   optimized poolCalculator_propMax s = Thrown).
Proof.
  unfold optimizeAmounts, optimized. split.
  - intros given Hgiven Hsend. rewrite Hgiven. simpl.
    eexists. split; [done|]. simpl. rewrite Hgiven. simpl.
    assert (∀ i amount,
      fullAmounts (set_amounts (Some <$> send given) s) !! i = Some amount →
      send given !! i = Some amount) as Hfull.
    { intros i amount Hi.
      assert (i < tokenCount s)%nat as Hlt.
      { unfold tokenCount.
        change (tokenAddresses s)
          with (tokenAddresses (set_amounts (Some <$> send given) s)).
        rewrite <- InvestMathFacts.fullAmounts_length. by eapply lookup_lt_Some. }
      rewrite (InvestMathFacts.fullAmounts_lookup
                 (set_amounts (Some <$> send given) s) i Hlt) in Hi.
      injection Hi as <-. simpl.
      destruct (Hsend i Hlt) as (amount & Hamount & Hne).
      unfold index_or. rewrite list_lookup_fmap, Hamount. simpl.
      by rewrite decide_False. }
    split.
    + apply list_eq. intros i.
      destruct (decide (i < tokenCount s)%nat) as [Hlt|Hge].
      * rewrite lookup_take_lt by done.
        destruct (lookup_lt_is_Some_2
                    (fullAmounts (set_amounts (Some <$> send given) s)) i)
          as [amount Hamount].
        { rewrite InvestMathFacts.fullAmounts_length. exact Hlt. }
        by rewrite Hamount, (Hfull i amount Hamount).
      * rewrite lookup_take_ge by lia.
        apply lookup_ge_None. rewrite InvestMathFacts.fullAmounts_length.
        unfold tokenCount in Hge. simpl. lia.
    + f_equal. apply InvestMathFacts.every_true. intros j x Hx. simpl.
      apply bool_decide_eq_true. by apply Hfull.
  - intros ->. done.
Qed.

(** *** Balances *)

Lemma every_spec {A} (p : A → nat → bool) (a : list A) :
  ∀ i, every p i a = true ↔ ∀ j x, a !! j = Some x → p x (i + j)%nat = true.
Proof.
  induction a as [|x a IH]; intros i; simpl.
  - split; [|done]. by intros _ j y ?.
  - destruct (p x i) eqn:Hx.
    + rewrite IH. split.
      * intros Hall [|j] y Hy; simpl in Hy.
        -- injection Hy as <-. by rewrite Nat.add_0_r.
        -- rewrite <- Nat.add_succ_comm. by apply Hall.
      * intros Hall j y Hy. rewrite Nat.add_succ_comm. by apply (Hall (S j)).
    + split; [done|]. intros Hall.
      specialize (Hall 0%nat x eq_refl). rewrite Nat.add_0_r in Hall. congruence.
Qed.

Lemma includes_true (a : list bool) : includes true a = true ↔ true ∈ a.
Proof.
  induction a as [|y a IH]; simpl.
  - split; [done|]. by intros ?%elem_of_nil.
  - rewrite elem_of_cons. destruct y; simpl; [by split; [left|]|].
    rewrite IH. split; [by right|]. by intros [?|?].
Qed.

Lemma hasZeroBalance_true (s : State) :
  hasZeroBalance s = true ↔
  ∃ tokenAddress,
    tokenAddress ∈ tokenAddresses s ∧
    bn_eq (bnum (balanceFor tokenAddress)) bn_zero = true.
Proof.
  unfold hasZeroBalance, poolTokenBalances. rewrite includes_true.
  rewrite <- list_fmap_compose, list_elem_of_fmap. simpl.
  split; intros (t & Hzero & Hin); exists t; by split.
Qed.

Lemma hasNoBalances_true (s : State) :
  hasNoBalances s = true ↔
  ∀ tokenAddress,
    tokenAddress ∈ tokenAddresses s →
    bn_eq (bnum (balanceFor tokenAddress)) bn_zero = true.
Proof.
  unfold hasNoBalances, poolTokenBalances. rewrite every_spec. split.
  - intros Hall t [j Hj]%list_elem_of_lookup.
    apply (Hall j). by rewrite list_lookup_fmap, Hj.
  - intros Hall j x Hx. rewrite list_lookup_fmap in Hx.
    destruct (tokenAddresses s !! j) as [t|] eqn:Hj; [|done].
    injection Hx as <-. apply Hall. by eapply list_elem_of_lookup_2.
Qed.

Lemma hasAllTokens_true (s : State) :
  hasAllTokens s = true ↔
  ∀ tokenAddress,
    tokenAddress ∈ tokenAddresses s →
    bn_gt (bnum (balanceFor tokenAddress)) bn_zero = true.
Proof.
  unfold hasAllTokens, poolTokenBalances. rewrite every_spec. split.
  - intros Hall t [j Hj]%list_elem_of_lookup.
    apply (Hall j). by rewrite list_lookup_fmap, Hj.
  - intros Hall j x Hx. rewrite list_lookup_fmap in Hx.
    destruct (tokenAddresses s !! j) as [t|] eqn:Hj; [|done].
    injection Hx as <-. apply Hall. by eapply list_elem_of_lookup_2.
Qed.

(** A wallet that has all tokens has no zero balance: [hasAllTokens] and
    [hasZeroBalance] are never both true. *)
Theorem hasAllTokens_no_zero_balance (s : State) :
  hasAllTokens s = true → hasZeroBalance s = false.
Proof.
  rewrite hasAllTokens_true. intros Hall.
  apply not_true_is_false. rewrite hasZeroBalance_true.
  intros (t & Hin & Hzero). apply bn_eq_not_gt in Hzero.
  rewrite (Hall t Hin) in Hzero. discriminate.
Qed.

(** In a pool with at least one token, a wallet with no balances has a zero
    balance and does not have all tokens; in a pool without tokens
    [hasNoBalances] and [hasAllTokens] are both true and [hasZeroBalance] is
    false. *)
Theorem hasNoBalances_cases (s : State) :
  (tokenAddresses s ≠ [] → hasNoBalances s = true →
   hasZeroBalance s = true ∧ hasAllTokens s = false) ∧
  (tokenAddresses s = [] →
   hasNoBalances s = true ∧ hasAllTokens s = true ∧ hasZeroBalance s = false).
Proof.
  split.
  - intros Hne Hnone. rewrite hasNoBalances_true in Hnone.
    destruct (tokenAddresses s) as [|t ts] eqn:Haddrs; [done|].
    assert (t ∈ tokenAddresses s) as Hin by (rewrite Haddrs; by left).
    rewrite <- Haddrs in Hnone. split.
    + apply hasZeroBalance_true. exists t. split; [done|by apply Hnone].
    + apply not_true_is_false. rewrite hasAllTokens_true. intros Hall.
      pose proof (bn_eq_not_gt _ _ (Hnone t Hin)) as Hgt.
      rewrite (Hall t Hin) in Hgt. discriminate.
  - intros Hempty. unfold hasNoBalances, hasAllTokens, hasZeroBalance,
      poolTokenBalances. by rewrite Hempty.
Qed.

(** *** hasAmounts *)

(** Provided ['0'] is not greater than zero, [hasAmounts] is true exactly
    when, for one of the pool's tokens, an amount is entered that is not
    empty and is greater than zero. *)
Theorem hasAmounts_positive_entry (s : State) :
  bn_gt (bnum "0") bn_zero = false →
  hasAmounts s = true ↔
  ∃ i amount,
    (i < tokenCount s)%nat ∧ amounts s !! i = Some (Some amount) ∧
    amount ≠ "" ∧ bn_gt (bnum amount) bn_zero = true.
Proof.
  intros Hzero. unfold hasAmounts. rewrite InvestMathFacts.some_true.
  rewrite Exists_exists. split.
  - intros (amount & [i Hi]%list_elem_of_lookup & Hgt).
    assert (i < tokenCount s)%nat as Hlt.
    { unfold tokenCount. rewrite <- InvestMathFacts.fullAmounts_length.
      by eapply lookup_lt_Some. }
    rewrite (InvestMathFacts.fullAmounts_lookup s i Hlt) in Hi.
    injection Hi as <-. unfold index_or in Hgt.
    destruct (amounts s !! i) as [[x|]|] eqn:Hx; [|congruence..].
    destruct (decide (x = "")); [congruence|]. by exists i, x.
  - intros (i & amount & Hlt & Hi & Hne & Hgt). exists amount. split; [|done].
    apply list_elem_of_lookup. exists i.
    rewrite (InvestMathFacts.fullAmounts_lookup s i Hlt).
    by rewrite (InvestMathFacts.index_or_present _ _ _ _ Hi Hne).
Qed.

(** *** fullAmountsScaled, batchSwapAmountMap and getBatchSwap *)

Lemma map_result_Thrown {A B} (f : nat → A → result B) (l : list A) (i j : nat)
    (a : A) :
  l !! j = Some a → f (i + j)%nat a = Thrown → map_result f i l = Thrown.
Proof.
  intros Hj Hthrown.
  destruct (map_result f i l) as [bs|] eqn:Hbs; [|done].
  destruct (InvestMathFacts.map_result_Returned f l i bs Hbs) as [_ Hlook].
  destruct (Hlook j a Hj) as (b & _ & Hb). congruence.
Qed.

(** A token address that [getToken] does not know makes [fullAmountsScaled]
    and [batchSwapAmountMap] throw, and [getBatchSwap] then assigns
    nothing, whatever the query answers. *)
Theorem unknown_token_throws (s : State) (i : nat) (tokenAddress : string)
    (answer : result BatchSwap) :
  tokenAddresses s !! i = Some tokenAddress →
  getToken tokenAddress = None →
  fullAmountsScaled s = Thrown ∧
  batchSwapAmountMap s = Thrown ∧
  getBatchSwap answer s = s.
Proof.
  intros Haddr Hunknown.
  assert (fullAmountsScaled s = Thrown) as Hscaled.
  { assert (i < length (tokenAddresses s))%nat as Hlt by by eapply lookup_lt_Some.
    unfold fullAmountsScaled.
    eapply (map_result_Thrown _ _ 0%nat i);
      [exact (InvestMathFacts.fullAmounts_lookup s i Hlt)|].
    simpl. unfold poolTokens. rewrite list_lookup_fmap, Haddr. simpl.
    by rewrite Hunknown. }
  assert (batchSwapAmountMap s = Thrown) as Hmap.
  { unfold batchSwapAmountMap. by rewrite Hscaled. }
  repeat split; [done..|]. unfold getBatchSwap. by rewrite Hmap.
Qed.

(** When every token is known and [parseUnits] accepts every amount,
    [fullAmountsScaled] returns one scaled amount per token: at each index,
    what [parseUnits] gives for the amount there and the token's decimals. *)
Theorem fullAmountsScaled_returns (s : State) :
  (∀ i tokenAddress,
     tokenAddresses s !! i = Some tokenAddress →
     ∃ token scaledAmount,
       getToken tokenAddress = Some token ∧
       parseUnits (index_or (amounts s) i "0") (decimals token)
       = Returned scaledAmount) →
  ∃ scaled,
    fullAmountsScaled s = Returned scaled ∧
    length scaled = tokenCount s ∧
    ∀ i tokenAddress token,
      tokenAddresses s !! i = Some tokenAddress →
      getToken tokenAddress = Some token →
      ∃ scaledAmount,
        scaled !! i = Some scaledAmount ∧
        parseUnits (index_or (amounts s) i "0") (decimals token)
        = Returned scaledAmount.
Proof.
  intros Hall.
  destruct (InvestMathFacts.map_result_total
    (λ i amount,
       match poolTokens s !! i with
       | Some (Some token) => parseUnits amount (decimals token)
       | _ => Thrown
       end) (fullAmounts s) 0%nat) as [scaled Hscaled].
  { intros j amount Hj. simpl.
    assert (j < length (tokenAddresses s))%nat as Hlt.
    { rewrite <- InvestMathFacts.fullAmounts_length. by eapply lookup_lt_Some. }
    destruct (lookup_lt_is_Some_2 _ _ Hlt) as [t Ht].
    destruct (Hall j t Ht) as (token & v & Htoken & Hv).
    rewrite (InvestMathFacts.fullAmounts_lookup s j Hlt) in Hj.
    injection Hj as <-.
    unfold poolTokens. rewrite list_lookup_fmap, Ht. simpl. rewrite Htoken.
    by exists v. }
  exists scaled. split; [exact Hscaled|].
  split; [by apply InvestMathFacts.fullAmountsScaled_length|].
  intros i t token Ht Htoken.
  assert (i < length (tokenAddresses s))%nat as Hlt by by eapply lookup_lt_Some.
  destruct (InvestMathFacts.map_result_Returned _ _ _ _ Hscaled) as [_ Hlook].
  destruct (Hlook i _ (InvestMathFacts.fullAmounts_lookup s i Hlt))
    as (v & Hi & Hv).
  exists v. split; [exact Hi|].
  simpl in Hv. unfold poolTokens in Hv.
  rewrite list_lookup_fmap, Ht in Hv. simpl in Hv. by rewrite Htoken in Hv.
Qed.

Lemma foldl_insert_lookup_Some (entries : list (string * Z)) :
  ∀ (obj : gmap string Z) key value,
    foldl (λ obj (entry : string * Z), <[entry.1 := entry.2]> obj) obj entries
      !! key = Some value →
    (key, value) ∈ entries ∨ obj !! key = Some value.
Proof.
  induction entries as [|[k v] entries IH]; intros obj key value; simpl.
  - by right.
  - intros [Hin|Hobj]%IH; [left; by right|].
    destruct (decide (k = key)) as [->|Hne].
    + rewrite lookup_insert_eq in Hobj. injection Hobj as ->. left. by left.
    + rewrite lookup_insert_ne in Hobj by done. by right.
Qed.

(** Every entry of [batchSwapAmountMap] comes from one of the tokens: its
    key is the lower-cased address at some index and its value is the scaled
    amount at that index, which is greater than zero.  The map never holds a
    zero or negative amount. *)
Theorem batchSwapAmountMap_entries (s : State)
    (amountMap : gmap string Z) (scaled : list Z) :
  batchSwapAmountMap s = Returned amountMap →
  fullAmountsScaled s = Returned scaled →
  ∀ key amount,
    amountMap !! key = Some amount →
    0 < amount ∧
    ∃ i tokenAddress,
      tokenAddresses s !! i = Some tokenAddress ∧
      key = toLowerCase tokenAddress ∧
      scaled !! i = Some amount.
Proof.
  intros Hmap Hscaled key amount Hkey.
  unfold batchSwapAmountMap in Hmap. rewrite Hscaled in Hmap. simpl in Hmap.
  destruct (InvestMathFacts.allTokensWithAmounts_spec s scaled)
    as (entries & Hentries & Hkeys & Hvals).
  { by apply InvestMathFacts.fullAmountsScaled_length. }
  rewrite Hentries in Hmap. simpl in Hmap. injection Hmap as <-.
  apply foldl_insert_lookup_Some in Hkey as [Hin|Hempty];
    [|by rewrite lookup_empty in Hempty].
  apply list_elem_of_filter in Hin as [Hpositive [i Hi]%list_elem_of_lookup].
  split; [exact Hpositive|].
  assert (entries.*1 !! i = Some key) as Hk by by rewrite list_lookup_fmap, Hi.
  assert (entries.*2 !! i = Some amount) as Hv by by rewrite list_lookup_fmap, Hi.
  rewrite Hkeys, list_lookup_fmap in Hk. rewrite Hvals in Hv.
  destruct (tokenAddresses s !! i) as [t|] eqn:Ht; [|done].
  exists i, t. injection Hk as <-. done.
Qed.

(** After [getBatchSwap] has stored a swap, [bptOut] is computed from that
    swap's [amountTokenOut] and no longer from the calculator. *)
Theorem bptOut_after_getBatchSwap (s : State) (amountMap : gmap string Z)
    (swap : BatchSwap) (amount : Z) :
  batchSwapAmountMap s = Returned amountMap →
  BigNumber_from (amountTokenOut swap) = Returned amount →
  batchSwap (getBatchSwap (Returned swap) s) = Some swap ∧
  bptOut (getBatchSwap (Returned swap) s)
  = Returned
      (BigNumber_toString
         (if managedPoolWithTradingHalted (pool s) then Z.abs amount
          else minusSlippageScaled (Z.abs amount))).
Proof.
  intros Hmap Hamount. unfold getBatchSwap. rewrite Hmap.
  split; [done|]. unfold bptOut. simpl. rewrite Hamount. simpl.
  by destruct (managedPoolWithTradingHalted (pool s)).
Qed.

(** *** The watcher of fullAmounts, further *)

Lemma getBatchSwap_fullAmounts (answer : result BatchSwap) (s : State) :
  fullAmounts (getBatchSwap answer s) = fullAmounts s.
Proof.
  unfold getBatchSwap. by destruct (batchSwapAmountMap s), answer.
Qed.

(** The watcher's callback changes neither the token addresses nor the
    amounts, so [fullAmounts] is the same after it: the watcher does not
    trigger itself. *)
Theorem watcher_keeps_fullAmounts (answer : result BatchSwap) (before s : State) :
  let s' := fullAmounts_changed answer before s in
  tokenAddresses s' = tokenAddresses s ∧
  amounts s' = amounts s ∧
  fullAmounts s' = fullAmounts s.
Proof.
  simpl. unfold fullAmounts_changed, watch_fullAmounts.
  destruct (0 <=? _)%Z; [|].
  - destruct (fullAmounts s !! _) as [amount|]; [|done]. simpl.
    destruct (poolCalculator_propAmountsGiven _ _ _ _ _) as [given|]; [|done].
    simpl. destruct (shouldFetchBatchSwap _); [|done].
    unfold getBatchSwap.
    by destruct (batchSwapAmountMap _), answer.
  - destruct (shouldFetchBatchSwap s); [|done].
    unfold getBatchSwap. by destruct (batchSwapAmountMap s), answer.
Qed.

(** When the batch swap is not to be fetched, the watcher's callback leaves
    [batchSwap] as it is, also when the amounts were cleared, and [bptOut]
    stays what it was. *)
Theorem watcher_keeps_batchSwap (answer : result BatchSwap) (before s : State) :
  shouldFetchBatchSwap s = false →
  let s' := fullAmounts_changed answer before s in
  batchSwap s' = batchSwap s ∧ bptOut s' = bptOut s.
Proof.
  intros Hfetch. simpl. unfold fullAmounts_changed, watch_fullAmounts.
  destruct (0 <=? _)%Z.
  - destruct (fullAmounts s !! _) as [amount|]; [|done]. simpl.
    destruct (poolCalculator_propAmountsGiven _ _ _ _ _) as [given|]; [|done].
    simpl.
    change (shouldFetchBatchSwap (set_proportionalAmounts (send given) s))
      with (shouldFetchBatchSwap s).
    by rewrite Hfetch.
  - by rewrite Hfetch.
Qed.

(** When [propAmountsGiven] throws for the first changed index, the
    watcher's callback changes nothing at all: the proportional amounts stay
    and no batch swap is fetched. *)
Theorem watcher_stops_on_throw (answer : result BatchSwap) (before s : State)
    (i : nat) (amount : string) :
  fullAmounts s !! i = Some amount →
  fullAmounts before !! i ≠ Some amount →
  (∀ j unchanged, (j < i)%nat →
     fullAmounts s !! j = Some unchanged →
     fullAmounts before !! j = Some unchanged) →
  poolCalculator_propAmountsGiven (pool s) (useNativeAsset s) amount i "send"
  = Thrown →
  fullAmounts_changed answer before s = s.
Proof.
  intros Hi Hchanged Hbefore Hthrown.
  unfold fullAmounts_changed, watch_fullAmounts.
  rewrite (InvestMathFacts.findIndex_found _ _ 0%nat i amount Hi).
  - simpl. rewrite Nat2Z.id.
    destruct (0 <=? Z.of_nat i)%Z eqn:Hle; [|apply Z.leb_gt in Hle; lia].
    by rewrite Hi, Hthrown.
  - simpl. by apply bool_decide_eq_true.
  - intros j y Hj Hy. simpl. apply bool_decide_eq_false.
    intros Hne. apply Hne. by eapply Hbefore.
Qed.

End Facts.

(** *** The properties on the sample environment *)

#[local] Existing Instance Sample.sample_JavaScript.
#[local] Existing Instance Sample.sample_BigNumberJs.
#[local] Existing Instance Sample.sample_Ethers.

Lemma tokenAmount_reads_fullAmounts_sample :
  fullAmounts Sample.first_typed !! 0%nat
  = Some (tokenAmount Sample.first_typed 0) ∧
  tokenAmount Sample.first_typed 7 = "0".
Proof.
  split.
  - apply (proj1 (proj2 (tokenAmount_reads_fullAmounts Sample.first_typed 0))).
    vm_compute. lia.
  - apply (proj2 (proj2 (tokenAmount_reads_fullAmounts Sample.first_typed 7))).
    vm_compute. lia.
Defined.

(** The third amount is past the two tokens of the pool: dropping it changes
    nothing. *)
Lemma fullAmounts_reads_token_entries_sample :
  fullAmounts (set_amounts [None; Some "5"] SampleRest.native_and_token)
  = fullAmounts SampleRest.native_and_token.
Proof.
  apply (fullAmounts_reads_token_entries SampleRest.native_and_token).
  intros [|[|i]] Hi; [reflexivity..|]. vm_compute in Hi. lia.
Defined.

(** With one of each token in the wallet, the native amount becomes 0.95,
    the third entry stays, and the array keeps its three entries. *)
Lemma maximizeAmounts_assigns_sample :
  amounts (maximizeAmounts SampleRest.native_and_token) !! 0%nat
  = Some (Some "0.95") ∧
  amounts (maximizeAmounts SampleRest.native_and_token) !! 2%nat
  = Some (Some "9") ∧
  length (amounts (maximizeAmounts SampleRest.native_and_token)) = 3%nat.
Proof.
  destruct (maximizeAmounts_assigns SampleRest.native_and_token)
    as (Hassigned & Hafter & Hlength).
  split; [|split].
  - exact (Hassigned 0%nat _ eq_refl).
  - apply (Hafter 2%nat). vm_compute. lia.
  - exact Hlength.
Defined.

Lemma maximized_after_maximizeAmounts_sample :
  maximized (maximizeAmounts SampleRest.native_and_token) = true.
Proof.
  apply InvestMathFacts.maximized_after_maximizeAmounts.
  - intros _. split; [reflexivity|]. vm_compute. discriminate.
  - intros tokenAddress _ _. simpl. discriminate.
Defined.

Lemma optimized_after_optimizeAmounts_sample :
  ∃ s',
    optimizeAmounts (SampleRest.sample_propMax "0" Thrown) Sample.two_tokens
    = Returned s' ∧
    fullAmounts s' = ["2"; "3"] ∧
    optimized (SampleRest.sample_propMax "0" Thrown) s' = Returned true.
Proof.
  apply (proj1 (optimized_after_optimizeAmounts
                  (SampleRest.sample_propMax "0" Thrown) Sample.two_tokens)
           {| send := ["2"; "3"]; receive := []; fixedToken := 0%nat |} eq_refl).
  intros [|[|i]] Hi; vm_compute in Hi; [| |lia].
  - exists "2". by split.
  - exists "3". by split.
Defined.

Lemma hasAllTokens_no_zero_balance_sample :
  hasAllTokens SampleRest.native_and_token = true ∧
  hasZeroBalance SampleRest.native_and_token = false.
Proof.
  assert (hasAllTokens SampleRest.native_and_token = true) as Hall
    by reflexivity.
  split; [exact Hall|].
  exact (hasAllTokens_no_zero_balance SampleRest.native_and_token Hall).
Defined.

Lemma hasNoBalances_cases_sample :
  (hasZeroBalance SampleRest.empty_wallet = true ∧
   hasAllTokens SampleRest.empty_wallet = false) ∧
  (hasNoBalances SampleRest.no_tokens = true ∧
   hasAllTokens SampleRest.no_tokens = true ∧
   hasZeroBalance SampleRest.no_tokens = false).
Proof.
  split.
  - apply (proj1 (hasNoBalances_cases SampleRest.empty_wallet));
      [discriminate|reflexivity].
  - apply (proj2 (hasNoBalances_cases SampleRest.no_tokens)). reflexivity.
Defined.

Lemma hasAmounts_positive_entry_sample :
  hasAmounts Sample.amount_one = true.
Proof.
  apply (proj2 (hasAmounts_positive_entry Sample.amount_one eq_refl)).
  exists 0%nat, "1". split; [vm_compute; lia|]. split; [reflexivity|].
  split; [discriminate|reflexivity].
Defined.

Lemma unknown_token_throws_sample :
  fullAmountsScaled SampleRest.unknown_token = Thrown ∧
  batchSwapAmountMap SampleRest.unknown_token = Thrown ∧
  getBatchSwap
    (Returned {| amountTokenOut := "-1"; swaps := []; assets := [] |})
    SampleRest.unknown_token
  = SampleRest.unknown_token.
Proof.
  exact (unknown_token_throws SampleRest.unknown_token 1%nat "0xCd" _
           eq_refl eq_refl).
Defined.

Lemma fullAmountsScaled_returns_sample :
  ∃ scaled,
    fullAmountsScaled Sample.two_tokens = Returned scaled ∧
    length scaled = 2%nat ∧
    scaled !! 0%nat = Some (10 ^ 18).
Proof.
  destruct (fullAmountsScaled_returns Sample.two_tokens)
    as (scaled & Hscaled & Hlength & Hentries).
  { intros [|[|i]] tokenAddress Hi; simpl in Hi; [| |done].
    - exists {| symbol := "TKN"; decimals := 18 |}, (10 ^ 18).
      split; reflexivity.
    - exists {| symbol := "TKN"; decimals := 18 |}, 0.
      split; reflexivity. }
  exists scaled. split; [exact Hscaled|]. split; [exact Hlength|].
  destruct (Hentries 0%nat "0xAb" {| symbol := "TKN"; decimals := 18 |}
              eq_refl eq_refl) as (scaledAmount & Hfirst & Hparsed).
  rewrite Hfirst. f_equal. vm_compute in Hparsed. by injection Hparsed.
Defined.

(** Also when one token is listed twice, every amount of the map is greater
    than zero. *)
Lemma batchSwapAmountMap_entries_sample :
  ∃ amountMap,
    batchSwapAmountMap Sample.one_token_twice = Returned amountMap ∧
    ∀ key amount, amountMap !! key = Some amount → 0 < amount.
Proof.
  destruct (batchSwapAmountMap Sample.one_token_twice) as [amountMap|] eqn:Hmap;
    [|by vm_compute in Hmap].
  exists amountMap. split; [reflexivity|]. intros key amount Hkey.
  assert (fullAmountsScaled Sample.one_token_twice = Returned [10 ^ 18; 0])
    as Hscaled by (vm_compute; reflexivity).
  exact (proj1 (batchSwapAmountMap_entries Sample.one_token_twice
                  amountMap _ Hmap Hscaled key amount Hkey)).
Defined.

Lemma bptOut_after_getBatchSwap_sample :
  let swap := {| amountTokenOut := "-1000"; swaps := []; assets := ["0xab"] |} in
  bptOut (getBatchSwap (Returned swap) Sample.without_swap) = Returned "990".
Proof.
  simpl.
  destruct (batchSwapAmountMap Sample.without_swap) as [amountMap|] eqn:Hmap;
    [|by vm_compute in Hmap].
  exact (proj2 (bptOut_after_getBatchSwap Sample.without_swap amountMap
                  {| amountTokenOut := "-1000"; swaps := []; assets := ["0xab"] |}
                  (-1000) Hmap eq_refl)).
Defined.

(** The sample pool is not a phantom stable pool: the swap it holds stays. *)
Lemma watcher_keeps_batchSwap_sample :
  batchSwap (fullAmounts_changed Thrown Sample.without_swap Sample.with_swap)
  = batchSwap Sample.with_swap.
Proof.
  exact (proj1 (watcher_keeps_batchSwap Thrown Sample.without_swap
                  Sample.with_swap eq_refl)).
Defined.

Lemma watcher_stops_on_throw_sample :
  fullAmounts_changed Thrown SampleRest.typed_one SampleRest.typed_two
  = SampleRest.typed_two.
Proof.
  apply (watcher_stops_on_throw Thrown SampleRest.typed_one SampleRest.typed_two
           0%nat "2").
  - reflexivity.
  - vm_compute. discriminate.
  - intros j unchanged Hj. lia.
  - reflexivity.
Defined.

End InvestMathMoreFacts.

